(** * merge-convex: the MongoDB -> Convex migration scripts

    A shallow embedding of the three scripts of the repository
    ([users.js], [tags.js], [properties.js]) and the properties of the
    migration engine stated about them.

    Conventions of the embedding:
    - a JavaScript value that the scripts only pass around is kept in the
      smallest type that holds every value it can take ([value] below);
    - a field that may be missing from a source document is an [option];
    - an exception is a value of [exn]; code that can throw returns a sum or
      a pair of the state reached and the exception that escaped;
    - the target backend (Convex) is an explicit state ([target]) threaded
      through the calls, together with the list of calls issued. *)

From Stdlib Require Import String Ascii List Bool Arith ZArith Lia DecimalString.
Import ListNotations.
Open Scope string_scope.
Open Scope list_scope.

(** ** JavaScript values and object literals *)

Module JS.

(** The values produced by the identifier look-ups of the scripts.
    [Proto n] is the member named [n] that every object literal inherits from
    [Object.prototype] (a function, or the prototype object for
    [__proto__]): it is truthy, it is not a string and it is not [null]. *)
Inductive value : Type :=
| Null
| Str (s : string)
| Proto (name : string).

Definition value_eqb (a b : value) : bool :=
  match a, b with
  | Null, Null => true
  | Str x, Str y => String.eqb x y
  | Proto x, Proto y => String.eqb x y
  | _, _ => false
  end.

(** Exceptions thrown by the scripts or by the calls they make. *)
Inductive exn : Type :=
| TypeError (what : string)        (* property access on undefined or null *)
| RangeError (message : string)    (* a value out of the range of a built-in *)
| ReferenceError (name : string)   (* use of an undeclared identifier *)
| CallFailed (what : string)       (* a call to the target rejected *)
| Error (message : string).        (* throw new Error(message) *)

(** Names of the properties of [Object.prototype]. *)
Definition inheritedNames : list string :=
  [ "constructor"; "__proto__"; "hasOwnProperty"; "isPrototypeOf";
    "propertyIsEnumerable"; "toLocaleString"; "toString"; "valueOf";
    "__defineGetter__"; "__defineSetter__"; "__lookupGetter__";
    "__lookupSetter__" ].

Definition inherited (k : string) : bool :=
  existsb (String.eqb k) inheritedNames.

(** An object literal whose own properties are strings. *)
Definition object := list (string * string).

Fixpoint own (o : object) (k : string) : option string :=
  match o with
  | [] => None
  | (k', v) :: o' => if String.eqb k k' then Some v else own o' k
  end.

(** [o[k]]: own property first, then the prototype; [None] is [undefined]. *)
Definition get (o : object) (k : string) : option value :=
  match own o k with
  | Some v => Some (Str v)
  | None => if inherited k then Some (Proto k) else None
  end.

(** Truthiness of a value; [undefined] (no value) is falsy. *)
Definition truthy (v : value) : bool :=
  match v with
  | Null => false
  | Str s => negb (String.eqb s "")
  | Proto _ => true
  end.

(** [!x] for [x] a string or [undefined]. *)
Definition falsy (x : option string) : bool :=
  match x with
  | None => true
  | Some s => String.eqb s ""
  end.

(** [x || null] for [x] the result of a property look-up. *)
Definition orNull (x : option value) : value :=
  match x with
  | Some v => if truthy v then v else Null
  | None => Null
  end.

(** [x || d] *)
Definition orElse (x : option value) (d : value) : value :=
  match x with
  | Some v => if truthy v then v else d
  | None => d
  end.

(** The values registered in a table. *)
Definition registered (o : object) (v : value) : Prop :=
  exists k s, In (k, s) o /\ v = Str s.

(** Strings made of ASCII characters only. *)
Fixpoint isAscii (s : string) : bool :=
  match s with
  | EmptyString => true
  | String c s' => (nat_of_ascii c <? 128)%nat && isAscii s'
  end.

(** [String.prototype.toLowerCase] on strings of ASCII characters: the
    letters [A] to [Z] are replaced by [a] to [z]. A string is kept here as
    its bytes, and a character outside the ASCII range is left as it is; the
    built-in lower-cases such letters too, so a property that depends on what
    a lower-cased string holds is stated for [isAscii] strings. *)
Definition lowerAscii (c : ascii) : ascii :=
  let n := nat_of_ascii c in
  if ((65 <=? n) && (n <=? 90))%nat then ascii_of_nat (n + 32) else c.

Fixpoint toLowerCase (s : string) : string :=
  match s with
  | EmptyString => EmptyString
  | String c s' => String (lowerAscii c) (toLowerCase s')
  end.

(** The time values of the dates [Date] can hold: at most 8.64e15
    milliseconds from the epoch, either way. *)
Definition maxTime : Z := 8640000000000000.

Definition validTime (d : Z) : bool :=
  ((- maxTime <=? d) && (d <=? maxTime))%Z.

(** [new Date(d).toISOString()] for a stored date [d], given as its
    milliseconds from the epoch: out of the range above [new Date(d)] is an
    invalid date and [toISOString] throws. The string rendered is kept as the
    instant it denotes. *)
Definition toISOString (d : Z) : exn + Z :=
  if validTime d then inr d else inl (RangeError "Invalid time value").

(** A value interpolated in a template literal. *)
Definition interpolate (x : option string) : string :=
  match x with
  | Some s => s
  | None => "undefined"
  end.

End JS.

(** ** Source-store identifiers *)

Module Mongo.

Definition hexDigit (c : ascii) : bool :=
  let n := nat_of_ascii c in
  (((48 <=? n) && (n <=? 57)) || ((97 <=? n) && (n <=? 102)))%nat.

Fixpoint allHex (s : string) : bool :=
  match s with
  | EmptyString => true
  | String c s' => hexDigit c && allHex s'
  end.

Definition isHex24 (s : string) : bool :=
  (String.length s =? 24)%nat && allHex s.

(** A MongoDB [ObjectId]: its [toString()] is a string of 24 lower-case
    hexadecimal digits. *)
Record ObjectId : Type := mkObjectId {
  hex : string;
  hex_wf : isHex24 hex = true
}.

Definition toString (o : ObjectId) : string := hex o.

(** [o?.toString()] *)
Definition toStringOpt (o : option ObjectId) : option string :=
  option_map toString o.

Definition oid (s : string) (H : isHex24 s = true) : ObjectId :=
  mkObjectId s H.

End Mongo.

(** ** users.js

    The file holds the script twice, once with comments and once without;
    the two copies of [migrateUsers] and [mapOrgId] are the same code. *)

Module Users.
Import JS.

Definition orgIdMap : object :=
  [ ("628bff8d44cd3e01b746b737", "nd73x7djt7ez0zmyp49n6t0x3h6ztghc");
    ("628ea3ebfeec685660394d1c", "nd7dzk39r6hzmz012cvmgwgqvn70gdm0") ].

(** [mapOrgId(oldId)] of users.js. *)
Definition mapOrgId (oldId : option string) : value :=
  if falsy oldId then Null
  else match oldId with
       | Some k => orNull (get orgIdMap k)
       | None => Null
       end.

(** *** Source documents (collection [users]) *)

Module Source.

Record teamEntry : Type := mkTeamEntry {
  teamId : option Mongo.ObjectId;
  status : option string
}.

Record oldUser : Type := mkOldUser {
  _id : Mongo.ObjectId;
  email : option string;
  profileImg : option string;
  isOnBoarded : option bool;
  firstName : option string;
  lastName : option string;
  phone : option string;
  team : option (list teamEntry);
  teamActive : option Mongo.ObjectId;
  lastActive : option Z          (* a stored date: milliseconds from the
                                    epoch, as the store holds them *)
}.

End Source.

(** *** Target documents *)

Record membership : Type := mkMembership {
  id : value;
  role : string;
  status : string
}.

Record presenceInfo : Type := mkPresence {
  lastSeen : Z;                  (* the instant [toISOString] renders *)
  presenceStatus : string
}.

Record newUser : Type := mkNewUser {
  mongoId : string;
  email : string;
  emailVerified : bool;
  image : option string;
  isOnboardingComplete : bool;
  name : string;
  firstName : option string;
  lastName : option string;
  phone : string;
  orgIds : list membership;
  activeOrgId : value;
  presence : presenceInfo;
  providers : list string
}.

(** [oldUser.team.map(t => ({...}))]: the entries are converted in order and
    the first entry without [teamId] or [status] throws. *)
Fixpoint mapTeam (l : list Source.teamEntry) : exn + list membership :=
  match l with
  | [] => inr []
  | t :: l' =>
      match Source.teamId t with
      | None => inl (TypeError "t.teamId")
      | Some tid =>
          match Source.status t with
          | None => inl (TypeError "t.status")
          | Some st =>
              match mapTeam l' with
              | inl e => inl e
              | inr ms =>
                  inr (mkMembership
                         (mapOrgId (Some (Mongo.toString tid)))
                         "org:member"
                         (if String.eqb (toLowerCase st) "approved"
                          then "active" else "pending") :: ms)
              end
          end
      end
  end.

(** [.filter(org => org.id !== null)] *)
Definition resolved (ms : list membership) : list membership :=
  filter (fun org => negb (value_eqb (id org) Null)) ms.

(** [oldUser.lastActive ? new Date(oldUser.lastActive).toISOString()
                         : new Date().toISOString()]; [now] is the clock read
    by [new Date()], which is a date. *)
Definition lastSeenOf (now : Z) (lastActive : option Z) : exn + Z :=
  match lastActive with
  | Some d => toISOString d
  | None => inr now
  end.

(** The object literal [newUser] of the loop body; [now] is the clock read
    by [new Date()]. Its properties are evaluated in order, so the first
    missing field met throws, and a [lastActive] that is no date throws once
    [email] and [team] went through. *)
Definition transformUser (now : Z) (oldUser : Source.oldUser)
  : exn + newUser :=
  match Source.email oldUser with
  | None => inl (TypeError "oldUser.email")
  | Some mail =>
      match Source.team oldUser with
      | None => inl (TypeError "oldUser.team")
      | Some entries =>
          match mapTeam entries with
          | inl e => inl e
          | inr ms =>
              match lastSeenOf now (Source.lastActive oldUser) with
              | inl e => inl e
              | inr seen =>
                inr {| mongoId := Mongo.toString (Source._id oldUser);
                       email := toLowerCase mail;
                       emailVerified := true;
                       image := Source.profileImg oldUser;
                       isOnboardingComplete :=
                         match Source.isOnBoarded oldUser with
                         | Some b => b
                         | None => false
                         end;
                       name := interpolate (Source.firstName oldUser) ++ " "
                               ++ interpolate (Source.lastName oldUser);
                       firstName := Source.firstName oldUser;
                       lastName := Source.lastName oldUser;
                       phone := match Source.phone oldUser with
                                | Some p => p
                                | None => ""
                                end;
                       orgIds := resolved ms;
                       activeOrgId :=
                         orNull (Some (mapOrgId
                            (Mongo.toStringOpt (Source.teamActive oldUser))));
                       presence :=
                         {| lastSeen := seen;
                            presenceStatus := "offline" |};
                       providers := [""] |}
              end
          end
      end
  end.

(** [if (!newUser.activeOrgId && newUser.orgIds.length > 0)
       newUser.activeOrgId = newUser.orgIds[0].id] *)
Definition setDefaultActiveOrg (u : newUser) : newUser :=
  match orgIds u with
  | first :: _ =>
      if truthy (activeOrgId u) then u
      else {| mongoId := mongoId u; email := email u;
              emailVerified := emailVerified u; image := image u;
              isOnboardingComplete := isOnboardingComplete u;
              name := name u; firstName := firstName u;
              lastName := lastName u; phone := phone u;
              orgIds := orgIds u; activeOrgId := id first;
              presence := presence u; providers := providers u |}
  | [] => u
  end.

(** *** The target's user table

    The Convex functions the script calls are not part of the repository;
    the spec gives their surface (get by natural key, create, update). A
    query always answers; a write may be rejected (see [rejects] below). *)

Record userDoc : Type := mkUserDoc {
  doc_id : nat;                  (* [_id] *)
  fields : newUser
}.

Record table : Type := mkTable {
  docs : list userDoc;
  nextId : nat
}.

Definition emptyTable : table := mkTable [] 0.

(** Modelled from the spec: [users:getUserByEmail], the target's get by
    natural key, is missing from the sources; it returns the first stored
    user with that email, or [null]. *)
Definition getUserByEmail (t : table) (mail : string) : option userDoc :=
  find (fun d => String.eqb (email (fields d)) mail) (docs t).

Inductive mutation : Type :=
| Create (u : newUser)                 (* users:create *)
| Update (existingId : nat) (u : newUser).   (* users:update *)

(** Modelled from the spec: [users:create] and [users:update], the target's
    create and update, are missing from the sources; a creation stores the
    record under a fresh identifier, an update replaces the fields of the
    document with the given identifier by the record it carries. *)
Definition apply (t : table) (m : mutation) : table :=
  match m with
  | Create u => mkTable (docs t ++ [mkUserDoc (nextId t) u]) (S (nextId t))
  | Update i u =>
      mkTable (map (fun d => if Nat.eqb (doc_id d) i then mkUserDoc i u else d)
                   (docs t))
              (nextId t)
  end.

Inductive call : Type :=
| Query (mail : string) (result : option userDoc)  (* users:getUserByEmail *)
| Mutation (m : mutation).

(** *** The script's state *)

(** The counters declared by [migrateUsers]. *)
Record counters : Type := mkCounters {
  migratedCount : nat;
  errorCount : nat;
  skippedCount : nat
}.

(** [calls] holds the calls issued to the target, most recent first. *)
Record state : Type := mkState {
  target : table;
  calls : list call;
  vars : counters
}.

Definition action := state -> state * option exn.

Definition andThen (a b : action) : action :=
  fun st => match a st with
            | (st', None) => b st'
            | r => r
            end.

(** [try { a } catch (error) { h }] *)
Definition tryCatch (a : action) (h : exn -> action) : action :=
  fun st => match a st with
            | (st', Some e) => h e st'
            | r => r
            end.

(** [x++] for an identifier [x]: only the three declared counters are in
    scope; any other identifier is unresolvable. *)
Definition increment (x : string) : action :=
  fun st =>
    let c := vars st in
    if String.eqb x "migratedCount" then
      (mkState (target st) (calls st)
         (mkCounters (S (migratedCount c)) (errorCount c) (skippedCount c)),
       None)
    else if String.eqb x "errorCount" then
      (mkState (target st) (calls st)
         (mkCounters (migratedCount c) (S (errorCount c)) (skippedCount c)),
       None)
    else if String.eqb x "skippedCount" then
      (mkState (target st) (calls st)
         (mkCounters (migratedCount c) (errorCount c) (S (skippedCount c))),
       None)
    else (st, Some (ReferenceError x)).

Section Script.

(** Whether the target rejects a write (the awaited call then throws and the
    table is left as it was). *)
Variable rejects : table -> mutation -> bool.

(** [await convexClient.mutation(...)] *)
Definition mutate (m : mutation) : action :=
  fun st =>
    if rejects (target st) m then
      (mkState (target st) (Mutation m :: calls st) (vars st),
       Some (CallFailed "mutation"))
    else
      (mkState (apply (target st) m) (Mutation m :: calls st) (vars st), None).

(** One iteration of the [while] loop, for the document [oldUser] read at
    clock [now]; an exception that leaves the body is returned. *)
Definition processUser (now : Z) (oldUser : Source.oldUser) : action :=
  fun st =>
    match transformUser now oldUser with
    | inl e => (st, Some e)
    | inr newUser =>
        if (List.length (orgIds newUser) =? 0)%nat then
          increment "skippedCount" st
        else
          let newUser := setDefaultActiveOrg newUser in
          let existingUser := getUserByEmail (target st) (email newUser) in
          let st := mkState (target st)
                            (Query (email newUser) existingUser :: calls st)
                            (vars st) in
          match existingUser with
          | Some existing =>
              tryCatch
                (andThen (mutate (Update (doc_id existing) newUser))
                         (increment "updatedCount"))
                (fun _ => increment "errorCount") st
          | None =>
              tryCatch
                (andThen (mutate (Create newUser))
                         (increment "migratedCount"))
                (fun _ => increment "errorCount") st
          end
    end.

(** [while (await cursor.hasNext()) { ... }] over the documents of the
    collection; [clock i] is the time at which the [i]-th document is
    transformed. *)
Fixpoint processAll (clock : nat -> Z) (users : list Source.oldUser)
  : action :=
  fun st =>
    match users with
    | [] => (st, None)
    | oldUser :: rest =>
        match processUser (clock 0%nat) oldUser st with
        | (st', None) => processAll (fun i => clock (S i)) rest st'
        | r => r
        end
    end.

Definition decimal (n : nat) : string :=
  NilZero.string_of_uint (Nat.to_uint n).

(** The line logged when the loop completes. *)
Definition summary (c : counters) : string :=
  "Migration completed. Migrated: " ++ decimal (migratedCount c)
  ++ ", Skipped: " ++ decimal (skippedCount c)
  ++ ", Errors: " ++ decimal (errorCount c).

(** How a run ends: the summary line is logged, or the exception that left
    the loop is reported by the outer handler ([Error during migration]). *)
Inductive ending : Type :=
| Completed (report : string)
| Fatal (error : exn).

(** [migrateUsers()] on the documents of the source collection, against the
    target table [t]. *)
Definition migrateUsers (clock : nat -> Z) (users : list Source.oldUser)
           (t : table) : state * ending :=
  match processAll clock users (mkState t [] (mkCounters 0 0 0)) with
  | (st, None) => (st, Completed (summary (vars st)))
  | (st, Some e) => (st, Fatal e)
  end.

End Script.

(** *** Notions used to state the properties of the script *)

(** The write a record ready to be stored leads to, on a target that performs
    it: the user found by email is updated, or a user is created. *)
Definition upsert (u : newUser) (t : table) : table :=
  match getUserByEmail t (email u) with
  | Some existing => apply t (Update (doc_id existing) u)
  | None => apply t (Create u)
  end.

(** The records a run gets to look up in the target, in order: those of the
    documents read before one fails to transform, without the ones skipped
    for lack of organizations. *)
Fixpoint prepared (clock : nat -> Z) (users : list Source.oldUser)
  : list newUser :=
  match users with
  | [] => []
  | oldUser :: rest =>
      match transformUser (clock 0%nat) oldUser with
      | inl _ => []
      | inr newUser =>
          if (List.length (orgIds newUser) =? 0)%nat
          then prepared (fun i => clock (S i)) rest
          else setDefaultActiveOrg newUser
               :: prepared (fun i => clock (S i)) rest
      end
  end.

(** Whether some document carries the email. *)
Definition known (mail : string) (ds : list userDoc) : bool :=
  existsb (fun d => String.eqb (email (fields d)) mail) ds.

(** The documents after the record [u] replaced the first document with its
    email, or was added under the identifier [next]. *)
Fixpoint put (u : newUser) (ds : list userDoc) (next : nat) : list userDoc :=
  match ds with
  | [] => [mkUserDoc next u]
  | d :: ds' =>
      if String.eqb (email (fields d)) (email u)
      then mkUserDoc (doc_id d) u :: ds'
      else d :: put u ds' next
  end.

Definition store (u : newUser) (t : table) : table :=
  mkTable (put u (docs t) (nextId t))
          (if known (email u) (docs t) then nextId t else S (nextId t)).

(** Identifiers are given once and below [nextId]. *)
Definition wellFormed (t : table) : Prop :=
  NoDup (map doc_id (docs t)) /\
  Forall (fun d => doc_id d < nextId t) (docs t).

(** *** The rest of the file *)

(** [mapStatus(status)]: the [switch] on the lower-cased status. *)
Definition mapStatus (status : string) : string :=
  let s := toLowerCase status in
  if String.eqb s "approved" then "approved"
  else if String.eqb s "active" then "active"
  else if String.eqb s "invited" then "invited"
  else if String.eqb s "pending" then "pending"
  else "disabled".

(** The records carried by the writes among the calls. *)
Definition written (cs : list call) : list newUser :=
  flat_map (fun c => match c with
                     | Mutation (Create u) => [u]
                     | Mutation (Update _ u) => [u]
                     | Query _ _ => []
                     end) cs.

(** A document that has every field the loop body dereferences: [email],
    [team], and [teamId] and [status] in each entry of [team]. *)
Definition entryComplete (t : Source.teamEntry) : bool :=
  match Source.teamId t, Source.status t with
  | Some _, Some _ => true
  | _, _ => false
  end.

Definition complete (oldUser : Source.oldUser) : bool :=
  match Source.email oldUser, Source.team oldUser with
  | Some _, Some entries => forallb entryComplete entries
  | _, _ => false
  end.

(** A document whose [lastActive], when it has one, is a date. *)
Definition dated (oldUser : Source.oldUser) : bool :=
  match Source.lastActive oldUser with
  | Some d => validTime d
  | None => true
  end.

(** A document the loop body builds a record from. *)
Definition transformable (oldUser : Source.oldUser) : bool :=
  complete oldUser && dated oldUser.

(** A document whose [email], when it has one, is made of ASCII characters. *)
Definition asciiEmail (oldUser : Source.oldUser) : bool :=
  match Source.email oldUser with
  | Some mail => isAscii mail
  | None => true
  end.

(** The emails of the stored users, in order. *)
Definition emails (t : table) : list string :=
  map (fun d => email (fields d)) (docs t).

(** A write agrees with the look-up made for it: a creation carries the email
    looked up and the look-up found no user; an update carries the email
    looked up and the identifier of the user found, who has that email. *)
Definition agrees (m : mutation) (mail : string) (found : option userDoc)
  : Prop :=
  match m, found with
  | Create u, None => email u = mail
  | Update i u, Some existing =>
      email u = mail /\ i = doc_id existing /\
      email (fields existing) = mail
  | _, _ => False
  end.

(** The calls (most recent first) are look-ups each followed by the write
    that agrees with it. *)
Fixpoint lookedUp (cs : list call) : Prop :=
  match cs with
  | [] => True
  | Mutation m :: rest =>
      match rest with
      | Query mail found :: rest' => agrees m mail found /\ lookedUp rest'
      | _ => False
      end
  | Query _ _ :: _ => False
  end.

End Users.

(** ** tags.js *)

Module Tags.
Import JS.

Definition defaultOrg : string := "nd70p3ngxkh8n7chaddb81tjpx7166mr".

Definition orgIdMap : object :=
  [ ("628bff8d44cd3e01b746b737", "nd73x7djt7ez0zmyp49n6t0x3h6ztghc");
    ("628ea3ebfeec685660394d1c", "nd7dzk39r6hzmz012cvmgwgqvn70gdm0") ].

(** [mapOrgId(oldId)] of tags.js: an absent or empty identifier gets a fixed
    organization. *)
Definition mapOrgId (oldId : option string) : value :=
  if falsy oldId then Str defaultOrg
  else match oldId with
       | Some k => orNull (get orgIdMap k)
       | None => Null
       end.

Definition userIdMap : object :=
  [ ("628c069244cd3e01b746bb27", "jx7fccjdbh0tkk4d8sm5gkk55572ckx7");
    ("628c068a44cd3e01b746bb1b", "jx72n00r91av5bhvac1y1vj0ss72d194");
    ("632245717e8b30f96324399b", "jx7ehz07gwg8tgz2a085n3t75172cncs");
    ("60e1f01a93969009be99b46d", "jx71hh2kfx7j6v7504envzx1yn72dpk0");
    ("628c06f044cd3e01b746bb9e", "jx72pj9eav4g6wxec8wvc1txjd72d1p3");
    ("628c06a644cd3e01b746bb63", "jx7c59n0knmjg8n8yn62pyvh2s72dhsc");
    ("628c06b744cd3e01b746bb7a", "jx72yacpvkhc779st99xp6sfnx72d5x8");
    ("6334d9efe649ad2f1edecbae", "jx79wfbcyaaqnvcejqmdqpya8x72cr0k");
    ("66020ef2ad9f7a60cfd5de5e", "jx7ax8tdwcp3rd461a8rmn0tz172d1wh");
    ("6322457f7e8b30f9632439a7", "jx7864z64kzcm2p1xfj3wkk83172csvw");
    ("665fbbd06451bf23d3eab6c1", "jx7f7y699zrhyn46aa8dr6ym9572cf20");
    ("632245667e8b30f963244398f", "jx743dfq80jftth0bfdb1e6gq172cnnw");
    ("63225d8c7e8b30f963244450", "jx7d8ft0whj3zcjxqpqd05jdqs72d7mq");
    ("66045830ad9f7a60cfd74077", "jx7amjhxaqxnc55fs7mh4x73gh72d4qz");
    ("61382e137d8edd0023c1539d", "jx77anct8xft6ej3q3tetcbkp172cw5z");
    ("636025626b13702974981ad4", "jx7a5hmy7w66fpkjd4ew8a90rx72ddzf");
    ("65fb6089ad9f7a60cfd48b7f", "jx73e8tf5hp6wvxvew0wks9rth72cs4p");
    ("628c06c344cd3e01b746bb86", "jx7drgj8n8kx18egwwwkje8v9x72dkdf");
    ("6363f4a55acbe1bf42c33415", "jx73wsrz21fdttqfc6wxptyd1h72dygk") ].

Definition unknownUser : string := "jx7af8p9kcxg2hy7b4zgzez5056ztvpv".

(** [mapUserId(oldId)] of tags.js. *)
Definition mapUserId (oldId : option string) : value :=
  if falsy oldId then Null
  else match oldId with
       | Some k => orElse (get userIdMap k) (Str unknownUser)
       | None => Null
       end.

(** *** Source documents (collections [tagdatas] and [tagrefs]) *)

Module Source.

Record tagData : Type := mkTagData {
  _id : Mongo.ObjectId;
  team : option Mongo.ObjectId;
  tag : option string;
  userId : option Mongo.ObjectId
}.

(** A reference links the tag [tagObject] to the record [refWith]; [type] is
    the kind of that record. *)
Record tagRef : Type := mkTagRef {
  tagObject : option Mongo.ObjectId;
  type : string;
  refWith : option Mongo.ObjectId
}.

Record database : Type := mkDatabase {
  tagdatas : list tagData;
  tagrefs : list tagRef
}.

End Source.

(** [filter]: [team] is one of the two migrated teams. *)
Definition teamFilter (t : Source.tagData) : bool :=
  match Source.team t with
  | Some tm =>
      existsb (String.eqb (Mongo.toString tm))
              [ "628bff8d44cd3e01b746b737"; "628ea3ebfeec685660394d1c" ]
  | None => false
  end.

(** [refFilter]: [type] is [property]. *)
Definition refFilter (r : Source.tagRef) : bool :=
  existsb (String.eqb (Source.type r)) [ "property" ].

(** [tagRefMap]: the references grouped by the identifier of their tag. The
    keys are [ObjectId] strings, which name no inherited property, so the
    object is read as a plain table. *)
Definition refMap := list (string * list Source.tagRef).

(** [if (!acc[tagId]) acc[tagId] = []; acc[tagId].push(tagRef)] *)
Fixpoint push (acc : refMap) (tagId : string) (r : Source.tagRef) : refMap :=
  match acc with
  | [] => [(tagId, [r])]
  | (k, rs) :: acc' =>
      if String.eqb k tagId then (k, rs ++ [r]) :: acc'
      else (k, rs) :: push acc' tagId r
  end.

(** [tagRefs.reduce((acc, tagRef) => { ... }, {})] from the accumulator
    [acc] on: the first reference without [tagObject] throws. *)
Fixpoint groupInto (acc : refMap) (tagRefs : list Source.tagRef)
  : exn + refMap :=
  match tagRefs with
  | [] => inr acc
  | tagRef :: rest =>
      match Source.tagObject tagRef with
      | None => inl (TypeError "tagRef.tagObject")
      | Some o => groupInto (push acc (Mongo.toString o) tagRef) rest
      end
  end.

Definition groupRefs (tagRefs : list Source.tagRef) : exn + refMap :=
  groupInto [] tagRefs.

(** [tagRefMap[mongoId] || []] *)
Fixpoint refsOf (m : refMap) (mongoId : string) : list Source.tagRef :=
  match m with
  | [] => []
  | (k, rs) :: m' => if String.eqb k mongoId then rs else refsOf m' mongoId
  end.

(** *** Target documents *)

Record userRole : Type := mkUserRole {
  roleUserId : value;
  role : string
}.

Record newTagData : Type := mkNewTagData {
  orgId : value;
  name : option string;
  recordType : string;
  userIds : list userRole;
  mongoId : string
}.

(** The local variable [recordType] of the loop body ([None] when it is left
    unassigned). *)
Definition usage (references : list Source.tagRef) : option string :=
  let hasContacts :=
    existsb (fun ref => String.eqb (Source.type ref) "contact") references in
  let hasProperties :=
    existsb (fun ref => String.eqb (Source.type ref) "property") references in
  let recordType := None in
  let recordType :=
    if hasContacts && negb hasProperties then Some "contacts"
    else recordType in
  let recordType :=
    if negb hasContacts && hasProperties then Some "properties"
    else recordType in
  recordType.

(** The object literal [newTagData]; the [userId] of the tag is dereferenced
    while it is built. *)
Definition buildTag (orgId : value) (mongoId : string)
           (references : list Source.tagRef) (tagData : Source.tagData)
  : exn + newTagData :=
  let recordType := usage references in
  match Source.userId tagData with
  | None => inl (TypeError "tagData.userId")
  | Some uid =>
      inr {| orgId := orgId;
             name := Source.tag tagData;
             recordType := "properties";
             userIds := [ mkUserRole (mapUserId (Some (Mongo.toString uid)))
                                     "tag:admin" ];
             mongoId := mongoId |}
  end.

(** *** The target's tag tables

    The Convex functions the script calls are not part of the repository;
    the spec gives their surface (authenticate, get all of kind, get by
    external identifier, get links for record, create, add-link). A query
    always answers; a write may be declined or rejected (see [reply]
    below). [viewer] is the identity the token resolves to, if any, and
    [tagDocs] is what [tags:getAll] returns. A stored tag may carry an [id]
    field of its own; the script reads it as [tag.id]. *)

Record tagDoc : Type := mkTagDoc {
  tag_id : nat;                  (* [_id] *)
  idField : option string;       (* [id] *)
  stored : newTagData
}.

Record propertyDoc : Type := mkPropertyDoc {
  prop_id : nat;                 (* [_id] *)
  prop_mongoId : string
}.

Record tables : Type := mkTables {
  viewer : option nat;
  tagDocs : list tagDoc;
  properties : list propertyDoc;
  links : list (nat * nat);      (* (record, tag) *)
  nextId : nat
}.

Definition emptyTables (who : option nat) : tables :=
  mkTables who [] [] [] 0.

(** Modelled from the spec: [properties:getByMongoId], the target's get by
    external identifier, is missing from the sources; it returns the first
    property carrying that source identifier, or [null]. *)
Definition getByMongoId (t : tables) (m : string) : option propertyDoc :=
  find (fun p => String.eqb (prop_mongoId p) m) (properties t).

(** Modelled from the spec: [tags:getTagsForRecord], the target's get links
    for record, is missing from the sources; it returns the tags linked to
    the record, given here by their identifiers. *)
Definition getTagsForRecord (t : tables) (recordId : nat) : list nat :=
  map snd (filter (fun l => Nat.eqb (fst l) recordId) (links t)).

Inductive mutation : Type :=
| CreateTagFromMongo (d : newTagData)
| AddTagToRecord (recordId tagId : nat).

(** Modelled from the spec: [tags:createTagFromMongo] and
    [tags:addTagToRecord], the target's create and add-link, are missing
    from the sources; a creation stores the record it is given, and nothing
    else, under a fresh identifier, which it returns with status [success];
    an add-link stores one more link between the record and the tag. *)
Definition apply (t : tables) (m : mutation) : tables :=
  match m with
  | CreateTagFromMongo d =>
      mkTables (viewer t) (tagDocs t ++ [mkTagDoc (nextId t) None d])
               (properties t) (links t) (S (nextId t))
  | AddTagToRecord r g =>
      mkTables (viewer t) (tagDocs t) (properties t)
               (links t ++ [(r, g)]) (nextId t)
  end.

(** What the target answers to a write: it performs it, it returns without
    performing it (for a creation: a status other than [success]), or the
    call throws. *)
Inductive reply : Type :=
| Accepted
| Declined
| Rejected.

Inductive call : Type :=
| Viewer                                          (* users:viewer *)
| GetAll                                          (* tags:getAll *)
| GetByMongoId (m : string) (result : option propertyDoc)
| GetTagsForRecord (recordId : nat) (result : list nat)
| Mutation (m : mutation).

(** [link_count(tag, record)]: how many links the target holds between
    them. *)
Definition link_count (t : tables) (tagId recordId : nat) : nat :=
  List.length
    (filter (fun l => Nat.eqb (fst l) recordId && Nat.eqb (snd l) tagId)
            (links t)).

(** *** The script's state *)

(** [createdTags]: a [Map] from source tag identifier to created tag
    identifier, iterated in insertion order. *)
Definition createdMap := list (string * nat).

Fixpoint mapSet (m : createdMap) (k : string) (v : nat) : createdMap :=
  match m with
  | [] => [(k, v)]
  | (k', v') :: m' =>
      if String.eqb k' k then (k', v) :: m' else (k', v') :: mapSet m' k v
  end.

(** [calls] holds the calls issued to the target, most recent first. *)
Record state : Type := mkState {
  target : tables;
  calls : list call;
  createdTags : createdMap
}.

Definition action := state -> state * option exn.

Definition skip : action := fun st => (st, None).

Definition andThen (a b : action) : action :=
  fun st => match a st with
            | (st', None) => b st'
            | r => r
            end.

(** [try { a } catch (error) { h }] *)
Definition tryCatch (a : action) (h : exn -> action) : action :=
  fun st => match a st with
            | (st', Some e) => h e st'
            | r => r
            end.

(** [for (const x of xs) body(x)] *)
Fixpoint forEach {A : Type} (xs : list A) (body : A -> action) : action :=
  match xs with
  | [] => skip
  | x :: xs' => andThen (body x) (forEach xs' body)
  end.

Definition record (c : call) (st : state) : state :=
  mkState (target st) (c :: calls st) (createdTags st).

Definition optStringEqb (a b : option string) : bool :=
  match a, b with
  | Some x, Some y => String.eqb x y
  | None, None => true
  | _, _ => false
  end.

(** [set.has(x)] *)
Definition has (set : list (option string)) (x : option string) : bool :=
  existsb (optStringEqb x) set.

Section Script.

Variable verdict : tables -> mutation -> reply.

(** [await convexClient.mutation('tags:createTagFromMongo', newTagData)]
    followed by [if (result.status === 'success') createdTags.set(...)]. *)
Definition createTag (d : newTagData) : action :=
  fun st =>
    let st' := record (Mutation (CreateTagFromMongo d)) st in
    match verdict (target st) (CreateTagFromMongo d) with
    | Accepted =>
        (mkState (apply (target st) (CreateTagFromMongo d)) (calls st')
                 (mapSet (createdTags st) (mongoId d) (nextId (target st))),
         None)
    | Declined => (st', None)
    | Rejected => (st', Some (CallFailed "tags:createTagFromMongo"))
    end.

(** [await convexClient.mutation('tags:addTagToRecord', {recordId, tagId})] *)
Definition addTagToRecord (recordId tagId : nat) : action :=
  fun st =>
    let st' := record (Mutation (AddTagToRecord recordId tagId)) st in
    match verdict (target st) (AddTagToRecord recordId tagId) with
    | Accepted =>
        (mkState (apply (target st) (AddTagToRecord recordId tagId))
                 (calls st') (createdTags st), None)
    | Declined => (st', None)
    | Rejected => (st', Some (CallFailed "tags:addTagToRecord"))
    end.

(** The handler of the [try] around the linking of one reference: the
    message it logs reads [ref.refWith.toString()], so it throws in turn for
    a reference without [refWith]. *)
Definition linkFailed (ref : Source.tagRef) : action :=
  fun st =>
    match Source.refWith ref with
    | None => (st, Some (TypeError "ref.refWith"))
    | Some _ => (st, None)
    end.

(** The body of [for (const ref of references)]: the look-up of the record,
    the links it has now, and the link added when the tag is not among
    them. *)
Definition linkRef (convexTagId : nat) (ref : Source.tagRef) : action :=
  tryCatch
    (fun st =>
       match Source.refWith ref with
       | None => (st, Some (TypeError "ref.refWith"))
       | Some refWith =>
           let m := Mongo.toString refWith in
           let found := getByMongoId (target st) m in
           let st := record (GetByMongoId m found) st in
           match found with
           | None => (st, Some (TypeError "record._id"))
           | Some rec =>
               let existingTags :=
                 getTagsForRecord (target st) (prop_id rec) in
               let st :=
                 record (GetTagsForRecord (prop_id rec) existingTags) st in
               if negb (existsb (fun g => Nat.eqb g convexTagId) existingTags)
               then addTagToRecord (prop_id rec) convexTagId st
               else (st, None)
           end
       end)
    (fun _ => linkFailed ref).

(** [for (const [mongoId, convexTagId] of createdTags) ...] *)
Definition linkCreated (tagRefMap : refMap) : action :=
  fun st =>
    forEach (createdTags st)
            (fun entry =>
               forEach (refsOf tagRefMap (fst entry)) (linkRef (snd entry)))
            st.

(** The body of [for (const tagData of tagDatas)]; an exception that leaves
    the linking loop is caught here with the others. *)
Definition processTag (tagRefMap : refMap)
           (existingTagIds existingTagNames : list (option string))
           (tagData : Source.tagData) : action :=
  tryCatch
    (fun st =>
       let mongoId := Mongo.toString (Source._id tagData) in
       match Source.team tagData with
       | None => (st, Some (TypeError "tagData.team"))
       | Some tm =>
           let orgId := mapOrgId (Some (Mongo.toString tm)) in
           if has existingTagIds (Some mongoId)
              || has existingTagNames (Source.tag tagData)
           then (st, None)
           else
             let references := refsOf tagRefMap mongoId in
             match buildTag orgId mongoId references tagData with
             | inl e => (st, Some e)
             | inr newTagData =>
                 andThen (tryCatch (createTag newTagData) (fun _ => skip))
                         (linkCreated tagRefMap) st
             end
       end)
    (fun _ => skip).

Inductive ending : Type :=
| Completed
| Fatal (error : exn).

(** [updateTags()] on the source database [db], against the target [t]. The
    grouping of the references is outside the [try] of the loop: an
    exception it throws ends the run, before [tags:getAll] is called. *)
Definition updateTags (db : Source.database) (t : tables) : state * ending :=
  let st := mkState t [Viewer] [] in
  match viewer t with
  | None => (st, Fatal (Error "Authentication failed"))
  | Some _ =>
      let tagDatas := filter teamFilter (Source.tagdatas db) in
      let tagRefs := filter refFilter (Source.tagrefs db) in
      match groupRefs tagRefs with
      | inl e => (st, Fatal e)
      | inr tagRefMap =>
          let existingTags := tagDocs t in
          let st := record GetAll st in
          let existingTagIds := map idField existingTags in
          let existingTagNames :=
            map (fun d => name (stored d)) existingTags in
          match forEach tagDatas
                        (processTag tagRefMap existingTagIds existingTagNames)
                        st
          with
          | (st', None) => (st', Completed)
          | (st', Some e) => (st', Fatal e)
          end
      end
  end.

(** The association phase run [n] times over, each time by a run of the
    script. *)
Fixpoint rerun (db : Source.database) (n : nat) (t : tables) : tables :=
  match n with
  | O => t
  | S k => target (fst (updateTags db (rerun db k t)))
  end.

End Script.

(** *** Notions used to state the properties of the script *)

(** An action keeps [P], and an action never throws. *)
Definition preserves (P : state -> Prop) (a : action) : Prop :=
  forall st, P st -> P (fst (a st)).

Definition total (a : action) : Prop :=
  forall st, snd (a st) = None.

(** Every add-link call in [cs] (most recent first) comes right after the
    fetch of the links of the same record, and the tag was not among them. *)
Fixpoint guarded (cs : list call) : Prop :=
  match cs with
  | [] => True
  | Mutation (AddTagToRecord r g) :: rest =>
      match rest with
      | GetTagsForRecord r' existing :: _ => r' = r /\ ~ In g existing
      | _ => False
      end /\ guarded rest
  | _ :: rest => guarded rest
  end.

(** No tag is linked twice to a record. *)
Definition noDuplicateLink (t : tables) : Prop :=
  forall tagId recordId, link_count t tagId recordId <= 1.

(** The [recordType] of the tags whose creation was requested. *)
Definition requestedRecordTypes (cs : list call) : list string :=
  flat_map (fun c => match c with
                     | Mutation (CreateTagFromMongo d) => [recordType d]
                     | _ => []
                     end) cs.

(** Whether a reference is one of the tag with source identifier [k]. *)
Definition refersTo (k : string) (r : Source.tagRef) : bool :=
  match Source.tagObject r with
  | Some o => String.eqb (Mongo.toString o) k
  | None => false
  end.

(** The references the source holds for a tag. *)
Definition referenceSet (db : Source.database) (tagData : Source.tagData)
  : list Source.tagRef :=
  filter (refersTo (Mongo.toString (Source._id tagData))) (Source.tagrefs db).

(** A reference that names its tag. *)
Definition hasTagObject (r : Source.tagRef) : bool :=
  match Source.tagObject r with
  | Some _ => true
  | None => false
  end.

Definition hasKind (kind : string) (refs : list Source.tagRef) : bool :=
  existsb (fun ref => String.eqb (Source.type ref) kind) refs.

(** The duplicate check of the loop body, against the tags of [t]. *)
Definition alreadyExists (t : tables) (tagData : Source.tagData) : bool :=
  has (map idField (tagDocs t))
      (Some (Mongo.toString (Source._id tagData)))
  || has (map (fun d => name (stored d)) (tagDocs t)) (Source.tag tagData).

(** *** Further notions *)

(** The records whose creation was requested among the calls. *)
Definition requestedTags (cs : list call) : list newTagData :=
  flat_map (fun c => match c with
                     | Mutation (CreateTagFromMongo d) => [d]
                     | _ => []
                     end) cs.

(** The record the loop body builds for a document, when it can build one:
    the document has a [team] and a [userId]. *)
Definition built (tagRefMap : refMap) (tagData : Source.tagData)
  : option newTagData :=
  match Source.team tagData with
  | None => None
  | Some tm =>
      match buildTag (mapOrgId (Some (Mongo.toString tm)))
                     (Mongo.toString (Source._id tagData))
                     (refsOf tagRefMap (Mongo.toString (Source._id tagData)))
                     tagData with
      | inr d => Some d
      | inl _ => None
      end
  end.

(** The creation requested for a document against the tags the target held
    when the run began: none for a duplicate or for a document that cannot
    be built. *)
Definition creationFor (t : tables) (tagRefMap : refMap)
           (tagData : Source.tagData) : list newTagData :=
  if alreadyExists t tagData then []
  else match built tagRefMap tagData with
       | Some d => [d]
       | None => []
       end.

(** The state [st] was reached from the target [t] by additions only: the
    viewer and the properties are those of [t], tags and links were added
    after those of [t], every link added joins a property of [t] to a tag
    added, and every entry of [createdTags] names a tag added. *)
Definition grownFrom (t : tables) (st : state) : Prop :=
  viewer (target st) = viewer t /\
  properties (target st) = properties t /\
  exists newTags newLinks,
    tagDocs (target st) = tagDocs t ++ newTags /\
    links (target st) = links t ++ newLinks /\
    Forall (fun l =>
              (exists p, In p (properties t) /\ prop_id p = fst l) /\
              (exists doc, In doc newTags /\ tag_id doc = snd l))
           newLinks /\
    Forall (fun entry =>
              exists doc, In doc newTags /\ tag_id doc = snd entry /\
                          mongoId (stored doc) = fst entry)
           (createdTags st).

End Tags.

(** ** properties.js: the paginated extraction *)

Module Properties.

#[local] Set Implicit Arguments.

Section Extraction.

(** Continuation cursors and property documents are opaque to the loop. *)
Variables (token : Type) (property : Type).

(** What [properties:getProperties] returns for one page. *)
Record pageResult : Type := mkPageResult {
  page : list property;
  continueCursor : token;
  isDone : bool
}.

(** The paginated query; its argument is the cursor passed in
    [paginationOpts] ([None] is [null]). *)
Variable getProperties : option token -> pageResult.

(** The variables of the loop, and the responses received so far (most
    recent first). *)
Record loopState : Type := mkLoopState {
  allProperties : list property;
  cursor : option token;
  done : bool;
  totalPages : nat;
  responses : list pageResult
}.

Definition initial : loopState := mkLoopState [] None false 0 [].

(** [while (!isDone) { ... }]; [fuel] bounds the number of page calls. *)
Fixpoint fetchAll (fuel : nat) (st : loopState) : option loopState :=
  if done st then Some st
  else
    match fuel with
    | O => None
    | S fuel' =>
        let result := getProperties (cursor st) in
        if (List.length (page result) =? 0)%nat then
          Some (mkLoopState (allProperties st) (cursor st) (done st)
                            (totalPages st) (result :: responses st))
        else
          fetchAll fuel'
            (mkLoopState (allProperties st ++ page result)
                         (Some (continueCursor result))
                         (isDone result)
                         (S (totalPages st))
                         (result :: responses st))
    end.

(** The cursors at which a list of responses (oldest first) was obtained,
    starting from cursor [c]. *)
Fixpoint followed (c : option token) (rs : list pageResult) : Prop :=
  match rs with
  | [] => True
  | r :: rs' => r = getProperties c /\ followed (Some (continueCursor r)) rs'
  end.

(** The loop goes on after a response that has records and is not the last. *)
Definition goesOn (r : pageResult) : Prop :=
  page r <> [] /\ isDone r = false.

(** The loop stops at a response that is empty or signals completion. *)
Definition stops (r : pageResult) : Prop :=
  page r = [] \/ isDone r = true.

End Extraction.

End Properties.

(** ** properties.js: geocoding and the update of the coordinates *)

Module Coordinates.
Import JS.

#[local] Set Implicit Arguments.

Section Script.

(** A coordinate as the geocoder gives it; the script only passes it on. *)
Variable number : Type.

(** Continuation cursors of the paginated query. *)
Variable token : Type.

Record addressInfo : Type := mkAddress {
  street : option string;
  city : option string;
  state : option string;
  zip : option string            (* as the template literal renders it *)
}.

(** [{ coordinates: [lng, lat], type: "Point" }] *)
Record locationInfo : Type := mkLocation {
  coordinates : number * number;
  type : string
}.

Record property : Type := mkProperty {
  _id : nat;
  orgId : option string;
  address : option addressInfo;
  location : option locationInfo
}.

(** [`${address.street}, ${address.city}, ${address.state} ${address.zip}`] *)
Definition addressLine (a : addressInfo) : string :=
  interpolate (street a) ++ ", " ++ interpolate (city a) ++ ", "
  ++ interpolate (state a) ++ " " ++ interpolate (zip a).

(** [results[i].geometry.location] *)
Record geoPoint : Type := mkGeoPoint {
  lng : number;
  lat : number
}.

(** What the request to the geocoding service gives: the request throws (or
    the response has no [data]), or [response.data.results] is read; an entry
    of the results without [geometry.location] is [None]. *)
Inductive geoReply : Type :=
| Unreachable
| Results (results : option (list (option geoPoint))).

(** The geocoding service, asked about an address line. *)
Variable geocode : string -> geoReply.

(** [getCoordinates(address)]: every failure inside the [try] gives
    [null]. *)
Definition getCoordinates (a : addressInfo) : option locationInfo :=
  match geocode (addressLine a) with
  | Unreachable => None
  | Results None => None
  | Results (Some []) => None
  | Results (Some (None :: _)) => None
  | Results (Some (Some p :: _)) => Some (mkLocation (lng p, lat p) "Point")
  end.

Inductive call : Type :=
| Geocode (line : string)                       (* the request of getCoordinates *)
| UpdateProperty (id : nat) (org : option string) (loc : locationInfo).
                                                (* properties:updateProperty *)

(** Modelled from the spec: [properties:updateProperty], the target's update,
    is missing from the sources; it replaces the location of the property
    with the given identifier. *)
Definition setLocation (t : list property) (id : nat) (loc : locationInfo)
  : list property :=
  map (fun p => if Nat.eqb (_id p) id
                then mkProperty (_id p) (orgId p) (address p) (Some loc)
                else p) t.

(** Whether the target rejects a write (the awaited call then throws). *)
Variable rejects : list property -> nat -> locationInfo -> bool.

(** The target, the calls issued (most recent first) and the three counters
    of [updateCoordinates]. *)
Record progress : Type := mkProgress {
  target : list property;
  calls : list call;
  updatedCount : nat;
  skippedCount : nat;
  errorCount : nat
}.

(** The body of the [for] loop over [allProperties], with its [try]/[catch]:
    no exception leaves it. *)
Definition processProperty (p : property) (st : progress) : progress :=
  match address p with
  | None =>
      mkProgress (target st) (calls st) (updatedCount st) (S (skippedCount st))
              (errorCount st)
  | Some a =>
      let requested := Geocode (addressLine a) :: calls st in
      match getCoordinates a with
      | None =>
          mkProgress (target st) requested (updatedCount st) (skippedCount st)
                  (S (errorCount st))
      | Some loc =>
          let issued := UpdateProperty (_id p) (orgId p) loc :: requested in
          if rejects (target st) (_id p) loc
          then mkProgress (target st) issued (updatedCount st) (skippedCount st)
                       (S (errorCount st))
          else mkProgress (setLocation (target st) (_id p) loc) issued
                       (S (updatedCount st)) (skippedCount st) (errorCount st)
      end
  end.

Definition updateAll (allProperties : list property) (st : progress) : progress :=
  fold_left (fun st p => processProperty p st) allProperties st.

(** The figures of the update summary. *)
Record summary : Type := mkSummary {
  total : nat;
  updated : nat;
  skipped : nat;
  errors : nat
}.

Inductive ending : Type :=
| Completed (report : summary)
| Fatal (error : exn).

(** The paginated query [properties:getProperties]. *)
Variable getProperties : option token -> Properties.pageResult token property.

(** [updateCoordinates()] for the viewer the token resolves to, against the
    properties [t]; [fuel] bounds the page calls ([None]: not enough). *)
Definition updateCoordinates (fuel : nat) (viewer : option nat)
           (t : list property) : option (progress * ending) :=
  let st := mkProgress t [] 0 0 0 in
  match viewer with
  | None => Some (st, Fatal (Error "Authentication failed"))
  | Some _ =>
      match Properties.fetchAll getProperties fuel (Properties.initial _ _) with
      | None => None
      | Some extraction =>
          let allProperties := Properties.allProperties extraction in
          let st' := updateAll allProperties st in
          Some (st', Completed (mkSummary (List.length allProperties)
                                          (updatedCount st')
                                          (skippedCount st')
                                          (errorCount st')))
      end
  end.

(** The address lines requested and the writes issued among the calls. *)
Definition requests (cs : list call) : list string :=
  flat_map (fun c => match c with
                     | Geocode line => [line]
                     | UpdateProperty _ _ _ => []
                     end) cs.

Definition writes (cs : list call)
  : list (nat * option string * locationInfo) :=
  flat_map (fun c => match c with
                     | Geocode _ => []
                     | UpdateProperty id org loc => [(id, org, loc)]
                     end) cs.

(** The address lines of the properties that have an address, and the writes
    their geocoding leads to. *)
Definition addressLines (ps : list property) : list string :=
  flat_map (fun p => match address p with
                     | Some a => [addressLine a]
                     | None => []
                     end) ps.

Definition geocoded (ps : list property)
  : list (nat * option string * locationInfo) :=
  flat_map (fun p => match address p with
                     | Some a =>
                         match getCoordinates a with
                         | Some loc => [(_id p, orgId p, loc)]
                         | None => []
                         end
                     | None => []
                     end) ps.

End Script.

End Coordinates.

(** ** A run of the migration: the user script, then the tag script *)

Module Migration.

(** The target backend: the tables each script works on. *)
Record target : Type := mkTarget {
  userTable : Users.table;
  tagTables : Tags.tables
}.

(** The target before any migration, for the viewer [who]. *)
Definition emptyTarget (who : option nat) : target :=
  mkTarget Users.emptyTable (Tags.emptyTables who).

Record source : Type := mkSource {
  users : list Users.Source.oldUser;
  tags : Tags.Source.database
}.

Section Run.

Variable rejects : Users.table -> Users.mutation -> bool.
Variable verdict : Tags.tables -> Tags.mutation -> Tags.reply.

(** [node users.js] followed by [node tags.js]: the state of the target
    afterwards, and the calls each script issued (oldest first). *)
Definition migrate (clock : nat -> Z) (src : source) (t : target)
  : target * (list Users.call * list Tags.call) :=
  let u := fst (Users.migrateUsers rejects clock (users src) (userTable t)) in
  let g := fst (Tags.updateTags verdict (tags src) (tagTables t)) in
  (mkTarget (Users.target u) (Tags.target g),
   (rev (Users.calls u), rev (Tags.calls g))).

End Run.

(** A target that performs every write. *)
Definition reliableUsers : Users.table -> Users.mutation -> bool :=
  fun _ _ => false.

Definition reliableTags : Tags.tables -> Tags.mutation -> Tags.reply :=
  fun _ _ => Tags.Accepted.

Definition isCreateUser (c : Users.call) : bool :=
  match c with
  | Users.Mutation (Users.Create _) => true
  | _ => false
  end.

Definition isCreateTag (c : Tags.call) : bool :=
  match c with
  | Tags.Mutation (Tags.CreateTagFromMongo _) => true
  | _ => false
  end.

End Migration.

(** ** Sample documents used to exercise the scripts *)

Module Sample.
Import JS.

Definition teamA : Mongo.ObjectId := Mongo.oid "628bff8d44cd3e01b746b737" eq_refl.
Definition teamB : Mongo.ObjectId := Mongo.oid "628ea3ebfeec685660394d1c" eq_refl.
Definition otherTeam : Mongo.ObjectId := Mongo.oid "5f0000000000000000000001" eq_refl.
Definition id1 : Mongo.ObjectId := Mongo.oid "64a000000000000000000001" eq_refl.
Definition id2 : Mongo.ObjectId := Mongo.oid "64a000000000000000000002" eq_refl.
Definition id3 : Mongo.ObjectId := Mongo.oid "64a000000000000000000003" eq_refl.
Definition house : Mongo.ObjectId := Mongo.oid "64b000000000000000000001" eq_refl.
Definition author : Mongo.ObjectId := Mongo.oid "628c069244cd3e01b746bb27" eq_refl.

(** A user approved in team A, never seen active. *)
Definition ann : Users.Source.oldUser :=
  Users.Source.mkOldUser id1 (Some "A@x.com") None None (Some "Ann")
    (Some "Lee") None
    (Some [Users.Source.mkTeamEntry (Some teamA) (Some "Approved")])
    None None.

(** The same person under another source identifier. *)
Definition annAgain : Users.Source.oldUser :=
  Users.Source.mkOldUser id2 (Some "a@x.com") None None (Some "Ann")
    (Some "Lee-Smith") None
    (Some [Users.Source.mkTeamEntry (Some teamB) (Some "pending")])
    None (Some 1000%Z).

(** A user document without [email]. *)
Definition nameless : Users.Source.oldUser :=
  Users.Source.mkOldUser id3 None None None (Some "No") (Some "Mail") None
    (Some [Users.Source.mkTeamEntry (Some teamA) (Some "Approved")])
    None None.

(** A user whose only team is not in the organization table. *)
Definition stranger : Users.Source.oldUser :=
  Users.Source.mkOldUser id3 (Some "s@x.com") None None None None None
    (Some [Users.Source.mkTeamEntry (Some otherTeam) (Some "Approved")])
    None None.

Definition hotLead : Tags.Source.tagData :=
  Tags.Source.mkTagData id1 (Some teamA) (Some "Hot Lead") (Some author).

Definition coldLead : Tags.Source.tagData :=
  Tags.Source.mkTagData id2 (Some teamA) (Some "Cold Lead") (Some author).

(** A tag document without [userId]. *)
Definition orphan : Tags.Source.tagData :=
  Tags.Source.mkTagData id3 (Some teamB) (Some "Orphan") None.

Definition hotOnHouse : Tags.Source.tagRef :=
  Tags.Source.mkTagRef (Some id1) "property" (Some house).

Definition hotOnContact : Tags.Source.tagRef :=
  Tags.Source.mkTagRef (Some id1) "contact" (Some house).

(** A target that holds the property [house] and no tag. *)
Definition oneHouse : Tags.tables :=
  Tags.mkTables (Some 7) [] [Tags.mkPropertyDoc 50 (Mongo.toString house)]
                [] 100.

(** A target user entered by hand: same email as [ann], another source
    identifier. *)
Definition annByHand : Users.newUser :=
  Users.mkNewUser "64a000000000000000000009" "a@x.com" true None true
    "Ann L." (Some "Ann") (Some "L.") "555-0100"
    [Users.mkMembership (Str "nd7dzk39r6hzmz012cvmgwgqvn70gdm0")
                        "org:admin" "active"]
    (Str "nd7dzk39r6hzmz012cvmgwgqvn70gdm0")
    (Users.mkPresence 42 "online") [""].

Definition oneUser : Users.table :=
  Users.mkTable [Users.mkUserDoc 0 annByHand] 1.

Definition fresh (t : Users.table) : Users.state :=
  Users.mkState t [] (Users.mkCounters 0 0 0).

(** A target tag that carries the source identifier of [hotLead] in its
    [id] field, under another name. *)
Definition warm : Tags.tagDoc :=
  Tags.mkTagDoc 10 (Some (Mongo.toString id1))
    (Tags.mkNewTagData (Str "nd73x7djt7ez0zmyp49n6t0x3h6ztghc") (Some "Warm")
       "properties" [] (Mongo.toString id1)).

Definition oneTag : Tags.tables :=
  Tags.mkTables (Some 7) [warm] [] [] 100.

(** The records the tag script builds for [hotLead] and [coldLead]. *)
Definition hotLeadTag : Tags.newTagData :=
  Tags.mkNewTagData (Str "nd73x7djt7ez0zmyp49n6t0x3h6ztghc") (Some "Hot Lead")
    "properties"
    [Tags.mkUserRole (Str "jx7fccjdbh0tkk4d8sm5gkk55572ckx7") "tag:admin"]
    (Mongo.toString id1).

Definition coldLeadTag : Tags.newTagData :=
  Tags.mkNewTagData (Str "nd73x7djt7ez0zmyp49n6t0x3h6ztghc") (Some "Cold Lead")
    "properties"
    [Tags.mkUserRole (Str "jx7fccjdbh0tkk4d8sm5gkk55572ckx7") "tag:admin"]
    (Mongo.toString id2).

Definition begun (t : Tags.tables) : Tags.state :=
  Tags.mkState t [] [].

(** The record the user script builds for [ann] at clock [0]. *)
Definition annRecord : Users.newUser :=
  Users.mkNewUser (Mongo.toString id1) "a@x.com" true None false "Ann Lee"
    (Some "Ann") (Some "Lee") ""
    [Users.mkMembership (Str "nd73x7djt7ez0zmyp49n6t0x3h6ztghc")
                        "org:member" "active"]
    (Str "nd73x7djt7ez0zmyp49n6t0x3h6ztghc")
    (Users.mkPresence 0 "offline") [""].

(** A source of three properties served in two pages: cursors are page
    numbers. *)
Definition twoPages (c : option nat) : Properties.pageResult nat nat :=
  match c with
  | None => Properties.mkPageResult [11; 12] 1 false
  | Some 1 => Properties.mkPageResult [13] 2 true
  | Some n => Properties.mkPageResult [] n true
  end.

(** How many pages are left to serve from a cursor. *)
Definition pagesLeft (c : option nat) : nat :=
  match c with
  | None => 2
  | Some 1 => 1
  | Some _ => 0
  end.

(** A target that rejects every write to the user table. *)
Definition refusing : Users.table -> Users.mutation -> bool :=
  fun _ _ => true.

End Sample.

(** ** More sample documents *)

Module Fixtures.
Import JS.

(** A tag of the other team with the name of [Sample.hotLead]. *)
Definition hotLeadTwin : Tags.Source.tagData :=
  Tags.Source.mkTagData Sample.id2 (Some Sample.teamB) (Some "Hot Lead")
                        (Some Sample.author).

Definition twoHotLeads : Tags.Source.database :=
  Tags.Source.mkDatabase [Sample.hotLead; hotLeadTwin] [Sample.hotOnHouse].

(** A reference of type [property] that names no tag, and one that names no
    record. *)
Definition dangling : Tags.Source.tagRef :=
  Tags.Source.mkTagRef None "property" (Some Sample.house).

Definition unbound : Tags.Source.tagRef :=
  Tags.Source.mkTagRef (Some Sample.id1) "property" None.

(** A user whose [lastActive] is one millisecond past the last date. *)
Definition timeless : Users.Source.oldUser :=
  Users.Source.mkOldUser Sample.id3 (Some "t@x.com") None None None None None
    (Some [Users.Source.mkTeamEntry (Some Sample.teamA) (Some "Approved")])
    None (Some 8640000000000001%Z).

(** Three properties: one with an address the geocoder knows, one without
    address, one with an address the geocoder finds nothing for. *)
Definition mainStreet : Coordinates.addressInfo :=
  Coordinates.mkAddress (Some "1 Main St") (Some "Springfield") (Some "IL")
                        (Some "62701").

Definition nowhere : Coordinates.addressInfo :=
  Coordinates.mkAddress (Some "0 Nowhere") None None None.

Definition located : Coordinates.property Z :=
  Coordinates.mkProperty 1 (Some "org1") (Some mainStreet) None.

Definition unaddressed : Coordinates.property Z :=
  Coordinates.mkProperty 2 (Some "org1") None None.

Definition unlocatable : Coordinates.property Z :=
  Coordinates.mkProperty 3 (Some "org1") (Some nowhere) None.

Definition threeProperties : list (Coordinates.property Z) :=
  [located; unaddressed; unlocatable].

(** A geocoder that knows [mainStreet] only; coordinates in millionths of a
    degree. *)
Definition atlas (line : string) : Coordinates.geoReply Z :=
  if String.eqb line "1 Main St, Springfield, IL 62701"
  then Coordinates.Results
         (Some [Some (Coordinates.mkGeoPoint (-89650000)%Z 39800000%Z)])
  else Coordinates.Results (Some []).

Definition accepting : list (Coordinates.property Z) -> nat ->
                       Coordinates.locationInfo Z -> bool :=
  fun _ _ _ => false.

(** The three properties served in one page. *)
Definition onePage (c : option nat)
  : Properties.pageResult nat (Coordinates.property Z) :=
  match c with
  | None => Properties.mkPageResult threeProperties 1 true
  | Some n => Properties.mkPageResult [] n true
  end.

Definition onePageLeft (c : option nat) : nat :=
  match c with
  | None => 1
  | Some _ => 0
  end.

End Fixtures.

(** * Properties of the scripts *)

Import JS.

(** ** Identifier mapping *)

Lemma own_In (o : object) (k s : string) :
  own o k = Some s -> In (k, s) o.
Proof.
  induction o as [|[k' v] o IH]; simpl; intros H.
  - discriminate.
  - destruct (String.eqb k k') eqn:E.
    + apply String.eqb_eq in E. subst. injection H as ->. now left.
    + right. now apply IH.
Qed.

Lemma orNull_get_plain (o : object) (k : string) :
  inherited k = false ->
  registered o (orNull (get o k)) \/ orNull (get o k) = Null.
Proof.
  intros Hk. unfold get. destruct (own o k) as [s|] eqn:E.
  - simpl. destruct (negb (String.eqb s "")).
    + left. exists k, s. split; [now apply own_In | reflexivity].
    + now right.
  - rewrite Hk. now right.
Qed.

(** The string of an [ObjectId] is neither empty nor the name of an
    inherited property. *)
Lemma toString_plain (o : Mongo.ObjectId) :
  falsy (Some (Mongo.toString o)) = false /\
  inherited (Mongo.toString o) = false.
Proof.
  destruct o as [s H]. unfold Mongo.toString; simpl.
  split.
  - destruct (String.eqb s "") eqn:E; [|reflexivity].
    apply String.eqb_eq in E. subst. discriminate H.
  - destruct (inherited s) eqn:E; [|reflexivity].
    unfold inherited, inheritedNames in E. simpl in E.
    repeat (apply orb_prop in E; destruct E as [E|E];
            [apply String.eqb_eq in E; subst; discriminate H|]).
    discriminate E.
Qed.

(** The identifiers the scripts map are [ObjectId] strings: on them both
    tables answer with a registered value or [null]. *)
Lemma mapOrgId_of_ObjectId (o : Mongo.ObjectId) :
  (registered Users.orgIdMap (Users.mapOrgId (Some (Mongo.toString o))) \/
   Users.mapOrgId (Some (Mongo.toString o)) = Null) /\
  (registered Tags.orgIdMap (Tags.mapOrgId (Some (Mongo.toString o))) \/
   Tags.mapOrgId (Some (Mongo.toString o)) = Null).
Proof.
  destruct (toString_plain o) as [Hf Hi].
  unfold Users.mapOrgId, Tags.mapOrgId. rewrite Hf.
  split; now apply orNull_get_plain.
Qed.

(** C4, as stated, fails: tags.js answers an empty identifier with a fixed
    organization that its table does not hold, and either script answers the
    name of an inherited property with that inherited member. *)
Lemma mapOrgId_unregistered_results :
  (Tags.mapOrgId (Some "") = Str Tags.defaultOrg /\
   ~ registered Tags.orgIdMap (Tags.mapOrgId (Some "")) /\
   Tags.mapOrgId (Some "") <> Null) /\
  (Users.mapOrgId (Some "constructor") = Proto "constructor" /\
   ~ registered Users.orgIdMap (Users.mapOrgId (Some "constructor")) /\
   Users.mapOrgId (Some "constructor") <> Null).
Proof.
  split; (split; [reflexivity | split; [|discriminate]]).
  - intros (k & s & Hin & Heq). simpl in Hin.
    destruct Hin as [Hin | [Hin | []]]; inversion Hin; subst; discriminate Heq.
  - intros (k & s & _ & Heq). discriminate Heq.
Qed.

(** C4 (amended): on every input that does not name an inherited property,
    users.js's [mapOrgId] returns a value of its table or [null]; tags.js's
    returns its fixed organization for an absent or empty input and a value
    of its table or [null] otherwise. Both are total: they never throw. *)
Theorem mapOrgId_registered_or_null (x : option string) :
  (forall k, x = Some k -> inherited k = false) ->
  (registered Users.orgIdMap (Users.mapOrgId x) \/ Users.mapOrgId x = Null) /\
  (falsy x = true -> Tags.mapOrgId x = Str Tags.defaultOrg) /\
  (falsy x = false ->
   registered Tags.orgIdMap (Tags.mapOrgId x) \/ Tags.mapOrgId x = Null).
Proof.
  intros Hx. unfold Users.mapOrgId, Tags.mapOrgId.
  destruct x as [k|]; simpl.
  - specialize (Hx k eq_refl). destruct (String.eqb k "") eqn:E.
    + split; [now right | split; [reflexivity | discriminate]].
    + split; [now apply orNull_get_plain |].
      split; [discriminate | intros _; now apply orNull_get_plain].
  - split; [now right | split; [reflexivity | discriminate]].
Qed.

Lemma mapOrgId_registered_or_null_witness :
  (registered Users.orgIdMap
     (Users.mapOrgId (Some "628bff8d44cd3e01b746b737")) \/
   Users.mapOrgId (Some "628bff8d44cd3e01b746b737") = Null) /\
  (falsy (Some "628bff8d44cd3e01b746b737") = true ->
   Tags.mapOrgId (Some "628bff8d44cd3e01b746b737") = Str Tags.defaultOrg) /\
  (falsy (Some "628bff8d44cd3e01b746b737") = false ->
   registered Tags.orgIdMap
     (Tags.mapOrgId (Some "628bff8d44cd3e01b746b737")) \/
   Tags.mapOrgId (Some "628bff8d44cd3e01b746b737") = Null).
Proof.
  apply (mapOrgId_registered_or_null (Some "628bff8d44cd3e01b746b737")).
  intros k H. injection H as <-. reflexivity.
Defined.

(** ** The user script, one document at a time *)

Lemma setDefaultActiveOrg_email (u : Users.newUser) :
  Users.email (Users.setDefaultActiveOrg u) = Users.email u.
Proof.
  unfold Users.setDefaultActiveOrg.
  destruct (Users.orgIds u); [reflexivity|].
  destruct (truthy (Users.activeOrgId u)); reflexivity.
Qed.

Lemma length_zero_nil {A : Type} (l : list A) :
  (List.length l =? 0)%nat = true <-> l = [].
Proof.
  destruct l; simpl; split; try reflexivity; discriminate.
Qed.

Lemma length_zero_false {A : Type} (l : list A) :
  l <> [] -> (List.length l =? 0)%nat = false.
Proof.
  destruct l; simpl; [congruence | reflexivity].
Qed.

(** The write the loop body decides on for a record ready to be stored. *)
Lemma processUser_ready rejects now oldUser newUser st :
  Users.transformUser now oldUser = inr newUser ->
  Users.orgIds newUser <> [] ->
  let nu := Users.setDefaultActiveOrg newUser in
  let found := Users.getUserByEmail (Users.target st) (Users.email nu) in
  let m := match found with
           | Some existing => Users.Update (Users.doc_id existing) nu
           | None => Users.Create nu
           end in
  let c := Users.vars st in
  Users.processUser rejects now oldUser st =
  (Users.mkState
     (if rejects (Users.target st) m then Users.target st
      else Users.apply (Users.target st) m)
     (Users.Mutation m :: Users.Query (Users.email nu) found :: Users.calls st)
     (match found, rejects (Users.target st) m with
      | None, false =>
          Users.mkCounters (S (Users.migratedCount c)) (Users.errorCount c)
                           (Users.skippedCount c)
      | _, _ =>
          Users.mkCounters (Users.migratedCount c) (S (Users.errorCount c))
                           (Users.skippedCount c)
      end),
   None).
Proof.
  intros Ht Ho. cbv zeta. unfold Users.processUser. rewrite Ht.
  rewrite (length_zero_false _ Ho).
  destruct (Users.getUserByEmail (Users.target st)
              (Users.email (Users.setDefaultActiveOrg newUser)))
    as [existing|] eqn:Ef.
  - unfold Users.tryCatch, Users.andThen, Users.mutate. simpl.
    destruct (rejects (Users.target st) _); reflexivity.
  - unfold Users.tryCatch, Users.andThen, Users.mutate. simpl.
    destruct (rejects (Users.target st) _); reflexivity.
Qed.

(** The three ways an iteration of the loop can go. *)
Lemma processUser_step rejects now oldUser st :
  (exists e,
      Users.transformUser now oldUser = inl e /\
      Users.processUser rejects now oldUser st = (st, Some e)) \/
  (exists newUser,
      Users.transformUser now oldUser = inr newUser /\
      Users.orgIds newUser = [] /\
      Users.processUser rejects now oldUser st
      = (Users.mkState (Users.target st) (Users.calls st)
           (Users.mkCounters (Users.migratedCount (Users.vars st))
                             (Users.errorCount (Users.vars st))
                             (S (Users.skippedCount (Users.vars st)))),
         None)) \/
  (exists newUser,
      Users.transformUser now oldUser = inr newUser /\
      Users.orgIds newUser <> [] /\
      let nu := Users.setDefaultActiveOrg newUser in
      let found := Users.getUserByEmail (Users.target st) (Users.email nu) in
      let m := match found with
               | Some existing => Users.Update (Users.doc_id existing) nu
               | None => Users.Create nu
               end in
      let c := Users.vars st in
      Users.processUser rejects now oldUser st =
      (Users.mkState
         (if rejects (Users.target st) m then Users.target st
          else Users.apply (Users.target st) m)
         (Users.Mutation m :: Users.Query (Users.email nu) found
          :: Users.calls st)
         (match found, rejects (Users.target st) m with
          | None, false =>
              Users.mkCounters (S (Users.migratedCount c))
                               (Users.errorCount c) (Users.skippedCount c)
          | _, _ =>
              Users.mkCounters (Users.migratedCount c)
                               (S (Users.errorCount c)) (Users.skippedCount c)
          end),
       None)).
Proof.
  destruct (Users.transformUser now oldUser) as [e|newUser] eqn:Ht.
  - left. exists e. split; [reflexivity|].
    unfold Users.processUser. now rewrite Ht.
  - right. destruct (Users.orgIds newUser) as [|m ms] eqn:Ho.
    + left. exists newUser. repeat split; try assumption.
      unfold Users.processUser. rewrite Ht, Ho. reflexivity.
    + right. exists newUser. split; [reflexivity|].
      split; [rewrite Ho; discriminate|].
      apply processUser_ready; [exact Ht | rewrite Ho; discriminate].
Qed.

Lemma processAll_cons rejects clock oldUser rest st :
  Users.processAll rejects clock (oldUser :: rest) st
  = match Users.processUser rejects (clock 0%nat) oldUser st with
    | (st', None) =>
        Users.processAll rejects (fun i => clock (S i)) rest st'
    | r => r
    end.
Proof. reflexivity. Qed.

(** C7: a user whose resolved membership list is empty is skipped: the skip
    count goes up by one, the create count does not move, and no call at
    all (so no create call) is issued for that user. *)
Theorem user_without_membership_skipped rejects now oldUser newUser st :
  Users.transformUser now oldUser = inr newUser ->
  Users.orgIds newUser = [] ->
  Users.processUser rejects now oldUser st =
  (Users.mkState (Users.target st) (Users.calls st)
     (Users.mkCounters (Users.migratedCount (Users.vars st))
                       (Users.errorCount (Users.vars st))
                       (S (Users.skippedCount (Users.vars st)))),
   None).
Proof.
  intros Ht Ho. unfold Users.processUser. rewrite Ht, Ho. reflexivity.
Qed.

Lemma user_without_membership_skipped_witness :
  Users.processUser Migration.reliableUsers 0 Sample.stranger
    (Sample.fresh Users.emptyTable) =
  (Users.mkState Users.emptyTable [] (Users.mkCounters 0 0 1), None).
Proof.
  eapply (@user_without_membership_skipped Migration.reliableUsers 0%Z
            Sample.stranger _ (Sample.fresh Users.emptyTable));
    reflexivity.
Defined.

(** C10: a duplicate user whose update is performed is counted as an error.
    [updatedCount] is not declared, so its increment throws inside the [try]
    block and the handler increments [errorCount]; the summary line holds the
    migrated, skipped and error counts only. *)
Theorem performed_update_counted_as_error
        rejects now oldUser newUser existing st :
  Users.transformUser now oldUser = inr newUser ->
  Users.orgIds newUser <> [] ->
  Users.getUserByEmail (Users.target st) (Users.email newUser)
    = Some existing ->
  rejects (Users.target st)
          (Users.Update (Users.doc_id existing)
                        (Users.setDefaultActiveOrg newUser)) = false ->
  Users.increment "updatedCount" st
    = (st, Some (ReferenceError "updatedCount")) /\
  Users.processUser rejects now oldUser st =
    (Users.mkState
       (Users.apply (Users.target st)
          (Users.Update (Users.doc_id existing)
                        (Users.setDefaultActiveOrg newUser)))
       (Users.Mutation
          (Users.Update (Users.doc_id existing)
                        (Users.setDefaultActiveOrg newUser))
        :: Users.Query (Users.email newUser) (Some existing)
        :: Users.calls st)
       (Users.mkCounters (Users.migratedCount (Users.vars st))
                         (S (Users.errorCount (Users.vars st)))
                         (Users.skippedCount (Users.vars st))),
     None) /\
  (forall c,
      Users.summary c =
      ("Migration completed. Migrated: "
       ++ Users.decimal (Users.migratedCount c)
       ++ ", Skipped: " ++ Users.decimal (Users.skippedCount c)
       ++ ", Errors: " ++ Users.decimal (Users.errorCount c))%string).
Proof.
  intros Ht Ho Hf Hr. split; [reflexivity | split; [| reflexivity]].
  rewrite (processUser_ready rejects now oldUser newUser st Ht Ho). cbv zeta.
  rewrite setDefaultActiveOrg_email, Hf, Hr. reflexivity.
Qed.

Lemma performed_update_counted_as_error_witness :
  Users.errorCount
    (Users.vars
       (fst (Users.processUser Migration.reliableUsers 0 Sample.ann
               (Sample.fresh Sample.oneUser)))) = 1%nat.
Proof.
  assert (H := @performed_update_counted_as_error
                 Migration.reliableUsers 0%Z Sample.ann _
                 (Users.mkUserDoc 0 Sample.annByHand)
                 (Sample.fresh Sample.oneUser)
                 eq_refl ltac:(discriminate) eq_refl eq_refl).
  destruct H as (_ & H & _). rewrite H. reflexivity.
Defined.

(** ** The tag script: actions *)

Lemma tryCatch_skip_total (a : Tags.action) :
  Tags.total (Tags.tryCatch a (fun _ => Tags.skip)).
Proof.
  intros st. unfold Tags.tryCatch.
  destruct (a st) as [st' [e|]]; reflexivity.
Qed.

Lemma forEach_total {A : Type} (xs : list A) (body : A -> Tags.action) :
  (forall x, Tags.total (body x)) -> Tags.total (Tags.forEach xs body).
Proof.
  intros Hb. induction xs as [|x xs IH]; intros st; simpl.
  - reflexivity.
  - unfold Tags.andThen. specialize (Hb x st).
    destruct (body x st) as [st' r]. simpl in Hb. subst r. apply IH.
Qed.

Lemma processTag_total verdict m ids names tagData :
  Tags.total (Tags.processTag verdict m ids names tagData).
Proof. apply tryCatch_skip_total. Qed.

Lemma preserves_skip P : Tags.preserves P Tags.skip.
Proof. intros st H. exact H. Qed.

Lemma preserves_andThen P a b :
  Tags.preserves P a -> Tags.preserves P b ->
  Tags.preserves P (Tags.andThen a b).
Proof.
  intros Ha Hb st H. unfold Tags.andThen. specialize (Ha st H).
  destruct (a st) as [st' [e|]]; simpl in *; [exact Ha | now apply Hb].
Qed.

Lemma preserves_tryCatch P a h :
  Tags.preserves P a -> (forall e, Tags.preserves P (h e)) ->
  Tags.preserves P (Tags.tryCatch a h).
Proof.
  intros Ha Hh st H. unfold Tags.tryCatch. specialize (Ha st H).
  destruct (a st) as [st' [e|]]; simpl in *; [now apply Hh | exact Ha].
Qed.

Lemma preserves_forEach {A : Type} P (xs : list A) (body : A -> Tags.action) :
  (forall x, In x xs -> Tags.preserves P (body x)) ->
  Tags.preserves P (Tags.forEach xs body).
Proof.
  induction xs as [|x xs IH]; intros Hb; simpl.
  - apply preserves_skip.
  - apply preserves_andThen.
    + apply Hb. now left.
    + apply IH. intros y Hy. apply Hb. now right.
Qed.

Lemma preserves_linkCreated P verdict m :
  (forall g ref, Tags.preserves P (Tags.linkRef verdict g ref)) ->
  Tags.preserves P (Tags.linkCreated verdict m).
Proof.
  intros Hl st H. unfold Tags.linkCreated.
  apply (preserves_forEach P); [|exact H].
  intros entry _. apply preserves_forEach. intros ref _. apply Hl.
Qed.

Lemma preserves_processTag P verdict m ids names tagData :
  (forall orgId mid refs d,
      Tags.buildTag orgId mid refs tagData = inr d ->
      Tags.preserves P (Tags.createTag verdict d)) ->
  (forall g ref, Tags.preserves P (Tags.linkRef verdict g ref)) ->
  Tags.preserves P (Tags.processTag verdict m ids names tagData).
Proof.
  intros Hc Hl. unfold Tags.processTag.
  apply preserves_tryCatch; [|intros; apply preserves_skip].
  intros st H.
  destruct (Tags.Source.team tagData) as [tm|]; [|exact H].
  destruct (Tags.has ids _ || Tags.has names _); [exact H|].
  destruct (Tags.buildTag _ _ _ tagData) as [e|d] eqn:Eb; [exact H|].
  apply preserves_andThen; [| now apply preserves_linkCreated | exact H].
  apply preserves_tryCatch; [|intros; apply preserves_skip].
  eapply Hc, Eb.
Qed.

(** A property kept by the creation of tags and by the linking of one
    reference holds of the state a run ends in. *)
Lemma updateTags_preserves P verdict db t :
  (forall tagData orgId mid refs d,
      Tags.buildTag orgId mid refs tagData = inr d ->
      Tags.preserves P (Tags.createTag verdict d)) ->
  (forall g ref, Tags.preserves P (Tags.linkRef verdict g ref)) ->
  P (Tags.mkState t [Tags.Viewer] []) ->
  P (Tags.mkState t [Tags.GetAll; Tags.Viewer] []) ->
  P (fst (Tags.updateTags verdict db t)).
Proof.
  intros Hc Hl H0 H1. unfold Tags.updateTags.
  destruct (Tags.viewer t); [|exact H0].
  destruct (Tags.groupRefs _) as [e|tagRefMap]; [exact H0|].
  match goal with
  | |- P (fst (match ?run with _ => _ end)) =>
      assert (H : P (fst run)); [|destruct run as [st' [e|]]; exact H]
  end.
  apply (preserves_forEach P); [|exact H1].
  intros tagData _. apply preserves_processTag; [|exact Hl].
  intros. eapply Hc; eassumption.
Qed.


(** What the linking of one reference does to the state. *)
Lemma linkRef_cases verdict g ref st :
  match Tags.Source.refWith ref with
  | None => fst (Tags.linkRef verdict g ref st) = st
  | Some refWith =>
      let m := Mongo.toString refWith in
      let found := Tags.getByMongoId (Tags.target st) m in
      let st1 := Tags.record (Tags.GetByMongoId m found) st in
      match found with
      | None => fst (Tags.linkRef verdict g ref st) = st1
      | Some rec =>
          let existing :=
            Tags.getTagsForRecord (Tags.target st) (Tags.prop_id rec) in
          let st2 :=
            Tags.record (Tags.GetTagsForRecord (Tags.prop_id rec) existing)
                        st1 in
          (In g existing /\ fst (Tags.linkRef verdict g ref st) = st2) \/
          (~ In g existing /\
           fst (Tags.linkRef verdict g ref st)
           = fst (Tags.addTagToRecord verdict (Tags.prop_id rec) g st2))
      end
  end.
Proof.
  cbv zeta. unfold Tags.linkRef, Tags.tryCatch, Tags.linkFailed.
  destruct (Tags.Source.refWith ref) as [refWith|]; [|reflexivity].
  destruct (Tags.getByMongoId (Tags.target st) _) as [rec|] eqn:Ef.
  - simpl Tags.target.
    destruct (existsb (fun g0 => Nat.eqb g0 g)
                (Tags.getTagsForRecord (Tags.target st) (Tags.prop_id rec)))
      eqn:Ee; simpl negb; cbv iota.
    + left. split; [|reflexivity].
      apply existsb_exists in Ee. destruct Ee as (x & Hx & Hxg).
      apply Nat.eqb_eq in Hxg. now subst.
    + right. split.
      * intros Hin. assert (existsb (fun g0 => Nat.eqb g0 g)
          (Tags.getTagsForRecord (Tags.target st) (Tags.prop_id rec)) = true).
        { apply existsb_exists. exists g. split; [exact Hin | apply Nat.eqb_refl]. }
        congruence.
      * match goal with
        | |- fst (match ?x with _ => _ end) = _ =>
            destruct x as [st' [e|]]; reflexivity
        end.
  - reflexivity.
Qed.

Lemma calls_createTag verdict d st :
  Tags.calls (fst (Tags.createTag verdict d st))
  = Tags.Mutation (Tags.CreateTagFromMongo d) :: Tags.calls st.
Proof.
  unfold Tags.createTag. destruct (verdict _ _); reflexivity.
Qed.

Lemma calls_addTagToRecord verdict r g st :
  Tags.calls (fst (Tags.addTagToRecord verdict r g st))
  = Tags.Mutation (Tags.AddTagToRecord r g) :: Tags.calls st.
Proof.
  unfold Tags.addTagToRecord. destruct (verdict _ _); reflexivity.
Qed.

Lemma target_addTagToRecord verdict r g st :
  Tags.target (fst (Tags.addTagToRecord verdict r g st)) = Tags.target st \/
  Tags.target (fst (Tags.addTagToRecord verdict r g st))
  = Tags.apply (Tags.target st) (Tags.AddTagToRecord r g).
Proof.
  unfold Tags.addTagToRecord. destruct (verdict _ _); simpl; auto.
Qed.

Lemma links_createTag verdict d st :
  Tags.links (Tags.target (fst (Tags.createTag verdict d st)))
  = Tags.links (Tags.target st).
Proof.
  unfold Tags.createTag. destruct (verdict _ _); reflexivity.
Qed.

(** ** The record type of created tags *)

Lemma buildTag_recordType orgId mid refs tagData d :
  Tags.buildTag orgId mid refs tagData = inr d ->
  Tags.recordType d = "properties".
Proof.
  unfold Tags.buildTag. destruct (Tags.Source.userId tagData); [|discriminate].
  intros H. injection H as <-. reflexivity.
Qed.

(** C1, as stated, fails: the source holds one reference for the tag
    [hotLead], of kind [contact]; the classification of the loop body finds
    [contacts], yet the record built and the creation requested carry
    [properties]. *)
Lemma contact_only_tag_created_as_properties :
  let db := Tags.Source.mkDatabase [Sample.hotLead] [Sample.hotOnContact] in
  Tags.hasKind "contact" (Tags.referenceSet db Sample.hotLead) = true /\
  Tags.hasKind "property" (Tags.referenceSet db Sample.hotLead) = false /\
  Tags.usage (Tags.referenceSet db Sample.hotLead) = Some "contacts" /\
  Tags.buildTag (Tags.mapOrgId (Some (Mongo.toString Sample.teamA)))
                (Mongo.toString Sample.id1)
                (Tags.referenceSet db Sample.hotLead) Sample.hotLead
    = inr Sample.hotLeadTag /\
  Tags.recordType Sample.hotLeadTag <> "contacts" /\
  Tags.requestedRecordTypes
    (Tags.calls (fst (Tags.updateTags Migration.reliableTags db
                                      Sample.oneHouse)))
    = ["properties"].
Proof.
  cbv zeta. repeat split; try reflexivity. discriminate.
Qed.

(** C1 (amended): every tag whose creation the tag migration requests
    carries the record type [properties], whatever its references are. *)
Theorem created_tag_recordType_properties verdict db t d :
  In (Tags.Mutation (Tags.CreateTagFromMongo d))
     (Tags.calls (fst (Tags.updateTags verdict db t))) ->
  Tags.recordType d = "properties".
Proof.
  revert d.
  apply (updateTags_preserves
           (fun st => forall d,
                In (Tags.Mutation (Tags.CreateTagFromMongo d)) (Tags.calls st) ->
                Tags.recordType d = "properties")).
  - intros tagData orgId mid refs d Hb st H d' Hin.
    rewrite calls_createTag in Hin. destruct Hin as [Heq | Hin].
    + injection Heq as <-. eapply buildTag_recordType, Hb.
    + now apply H.
  - intros g ref st H d Hin.
    pose proof (linkRef_cases verdict g ref st) as Hc. cbv zeta in Hc.
    destruct (Tags.Source.refWith ref) as [refWith|];
      [|rewrite Hc in Hin; now apply H].
    destruct (Tags.getByMongoId (Tags.target st) _) as [rec|].
    + destruct Hc as [[_ Hc] | [_ Hc]]; rewrite Hc in Hin.
      * simpl in Hin. destruct Hin as [Hin | [Hin | Hin]];
          try discriminate Hin. now apply H.
      * rewrite calls_addTagToRecord in Hin. simpl in Hin.
        destruct Hin as [Hin | [Hin | [Hin | Hin]]];
          try discriminate Hin. now apply H.
    + rewrite Hc in Hin. simpl in Hin.
      destruct Hin as [Hin | Hin]; [discriminate Hin | now apply H].
  - intros d [Hin | []]. discriminate Hin.
  - intros d [Hin | [Hin | []]]; discriminate Hin.
Qed.

Lemma created_tag_recordType_properties_witness :
  Tags.recordType Sample.hotLeadTag = "properties".
Proof.
  apply (created_tag_recordType_properties Migration.reliableTags
           (Tags.Source.mkDatabase [Sample.hotLead] [Sample.hotOnContact])
           Sample.oneHouse Sample.hotLeadTag).
  vm_compute. left. reflexivity.
Defined.

(** ** Links between tags and records *)

Lemma link_count_app t r g l :
  Tags.link_count
    (Tags.mkTables (Tags.viewer t) (Tags.tagDocs t) (Tags.properties t)
                   (Tags.links t ++ [l]) (Tags.nextId t)) g r
  = Tags.link_count t g r
    + (if Nat.eqb (fst l) r && Nat.eqb (snd l) g then 1 else 0).
Proof.
  unfold Tags.link_count. simpl. rewrite filter_app, length_app. simpl.
  destruct (Nat.eqb (fst l) r && Nat.eqb (snd l) g); reflexivity.
Qed.

(** A tag that is not among the links fetched for a record is not linked to
    it. *)
Lemma link_count_absent t r g :
  ~ In g (Tags.getTagsForRecord t r) -> Tags.link_count t g r = 0.
Proof.
  unfold Tags.getTagsForRecord, Tags.link_count.
  induction (Tags.links t) as [|[r' g'] ls IH]; simpl; intros H.
  - reflexivity.
  - destruct (Nat.eqb r' r) eqn:Er; simpl in *.
    + destruct (Nat.eqb g' g) eqn:Eg.
      * exfalso. apply H. left. now apply Nat.eqb_eq.
      * apply IH. intros Hin. apply H. now right.
    + now apply IH.
Qed.

Lemma linkRef_guarded verdict g ref :
  Tags.preserves (fun st => Tags.guarded (Tags.calls st))
                 (Tags.linkRef verdict g ref).
Proof.
  intros st H. pose proof (linkRef_cases verdict g ref st) as Hc.
  cbv zeta in Hc.
  destruct (Tags.Source.refWith ref) as [refWith|]; [|rewrite Hc; exact H].
  destruct (Tags.getByMongoId (Tags.target st) _) as [rec|].
  - destruct Hc as [[_ Hc] | [Hn Hc]]; rewrite Hc.
    + exact H.
    + rewrite calls_addTagToRecord. simpl. auto.
  - rewrite Hc. exact H.
Qed.

Lemma linkRef_noDuplicateLink verdict g ref :
  Tags.preserves (fun st => Tags.noDuplicateLink (Tags.target st))
                 (Tags.linkRef verdict g ref).
Proof.
  intros st H. pose proof (linkRef_cases verdict g ref st) as Hc.
  cbv zeta in Hc.
  destruct (Tags.Source.refWith ref) as [refWith|]; [|rewrite Hc; exact H].
  destruct (Tags.getByMongoId (Tags.target st) _) as [rec|].
  - destruct Hc as [[_ Hc] | [Hn Hc]]; rewrite Hc; [exact H|].
    match goal with
    | |- context [Tags.addTagToRecord verdict ?r g ?s] =>
        destruct (target_addTagToRecord verdict r g s) as [Ht | Ht]
    end; rewrite Ht; [exact H|].
    intros g' r'. simpl Tags.target. unfold Tags.apply.
    rewrite link_count_app. simpl fst; simpl snd.
    destruct (Nat.eqb (Tags.prop_id rec) r') eqn:Er;
      destruct (Nat.eqb g g') eqn:Eg; simpl;
      try (rewrite Nat.add_0_r; apply H).
    apply Nat.eqb_eq in Er, Eg. subst.
    rewrite (link_count_absent _ _ _ Hn). lia.
  - rewrite Hc. exact H.
Qed.

Lemma updateTags_noDuplicateLink verdict db t :
  Tags.noDuplicateLink t ->
  Tags.noDuplicateLink (Tags.target (fst (Tags.updateTags verdict db t))).
Proof.
  intros H.
  apply (updateTags_preserves
           (fun st => Tags.noDuplicateLink (Tags.target st)));
    try exact H.
  - intros tagData orgId mid refs d _ st Hst g r.
    unfold Tags.link_count. rewrite links_createTag. apply Hst.
  - intros g ref. apply linkRef_noDuplicateLink.
Qed.

(** C5: an add-link call is issued only right after the links of the
    referenced record were fetched and the tag was found absent from them;
    consequently a target in which no tag is linked twice to a record stays
    so after any number of runs of the association phase. *)
Theorem link_added_only_when_absent verdict db t n :
  Tags.noDuplicateLink t ->
  (forall t', Tags.guarded
                (Tags.calls (fst (Tags.updateTags verdict db t')))) /\
  (forall tagId recordId,
      Tags.link_count (Tags.rerun verdict db n t) tagId recordId <= 1).
Proof.
  intros H. split.
  - intros t'.
    apply (updateTags_preserves (fun st => Tags.guarded (Tags.calls st)));
      try exact I.
    + intros tagData orgId mid refs d _ st Hst.
      rewrite calls_createTag. exact Hst.
    + intros g ref. apply linkRef_guarded.
  - induction n as [|n IH]; simpl.
    + exact H.
    + now apply updateTags_noDuplicateLink.
Qed.

Lemma link_added_only_when_absent_witness :
  Tags.link_count
    (Tags.rerun Migration.reliableTags
       (Tags.Source.mkDatabase [Sample.hotLead; Sample.coldLead]
                               [Sample.hotOnHouse])
       2 Sample.oneHouse) 100 50 <= 1.
Proof.
  apply (link_added_only_when_absent Migration.reliableTags
           (Tags.Source.mkDatabase [Sample.hotLead; Sample.coldLead]
                                   [Sample.hotOnHouse])
           Sample.oneHouse 2).
  intros g r. unfold Tags.link_count. simpl. lia.
Defined.

(** The link of the sample run is there, once. *)
Example sample_link_present_once :
  Tags.link_count
    (Tags.rerun Migration.reliableTags
       (Tags.Source.mkDatabase [Sample.hotLead; Sample.coldLead]
                               [Sample.hotOnHouse])
       2 Sample.oneHouse) 100 50 = 1.
Proof. reflexivity. Qed.

(** ** Creation and linking in one pass *)

(** C8 (evaluation at the failing input): two new tags, the first referenced
    by a property the target holds. The link of the first tag is added before
    the second tag is created, and the references of the first tag are gone
    through a second time after the second creation. *)
Theorem association_runs_inside_creation_pass :
  rev (Tags.calls
         (fst (Tags.updateTags Migration.reliableTags
                 (Tags.Source.mkDatabase [Sample.hotLead; Sample.coldLead]
                                         [Sample.hotOnHouse])
                 Sample.oneHouse)))
  = [ Tags.Viewer;
      Tags.GetAll;
      Tags.Mutation (Tags.CreateTagFromMongo Sample.hotLeadTag);
      Tags.GetByMongoId (Mongo.toString Sample.house)
        (Some (Tags.mkPropertyDoc 50 (Mongo.toString Sample.house)));
      Tags.GetTagsForRecord 50 [];
      Tags.Mutation (Tags.AddTagToRecord 50 100);
      Tags.Mutation (Tags.CreateTagFromMongo Sample.coldLeadTag);
      Tags.GetByMongoId (Mongo.toString Sample.house)
        (Some (Tags.mkPropertyDoc 50 (Mongo.toString Sample.house)));
      Tags.GetTagsForRecord 50 [100] ].
Proof. reflexivity. Qed.

(** ** The upsert decision *)

Lemma linkRef_adds_no_creation verdict g ref cs :
  Tags.preserves
    (fun st => exists later,
         Tags.calls st = later ++ cs /\ Tags.requestedRecordTypes later = [])
    (Tags.linkRef verdict g ref).
Proof.
  intros st (later & Hl & Hn).
  pose proof (linkRef_cases verdict g ref st) as Hc. cbv zeta in Hc.
  destruct (Tags.Source.refWith ref) as [refWith|];
    [|rewrite Hc; exists later; now split].
  destruct (Tags.getByMongoId (Tags.target st) _) as [rec|].
  - destruct Hc as [[_ Hc] | [_ Hc]]; rewrite Hc.
    + eexists (_ :: _ :: later). simpl. rewrite Hl. split; [reflexivity|].
      exact Hn.
    + rewrite calls_addTagToRecord. eexists (_ :: _ :: _ :: later). simpl.
      rewrite Hl. split; [reflexivity | exact Hn].
  - rewrite Hc. eexists (_ :: later). simpl. rewrite Hl.
    split; [reflexivity | exact Hn].
Qed.

(** C2, as stated, fails on both scripts. The target user [annByHand]
    matches [ann] by email only, yet an update is issued and overwrites it;
    the target tag [warm] matches [hotLead] by identifier, yet no update is
    issued: the tag is skipped. *)
Lemma duplicates_handled_otherwise :
  (forallb (fun d => negb (String.eqb (Users.mongoId (Users.fields d))
                                      (Mongo.toString Sample.id1)))
           (Users.docs Sample.oneUser) = true /\
   Users.processUser Migration.reliableUsers 0 Sample.ann
     (Sample.fresh Sample.oneUser)
   = (Users.mkState
        (Users.mkTable [Users.mkUserDoc 0 Sample.annRecord] 1)
        [ Users.Mutation (Users.Update 0 Sample.annRecord);
          Users.Query "a@x.com" (Some (Users.mkUserDoc 0 Sample.annByHand)) ]
        (Users.mkCounters 0 1 0),
      None)) /\
  (Tags.has (map Tags.idField (Tags.tagDocs Sample.oneTag))
            (Some (Mongo.toString (Tags.Source._id Sample.hotLead))) = true /\
   Tags.has (map (fun d => Tags.name (Tags.stored d))
                 (Tags.tagDocs Sample.oneTag))
            (Tags.Source.tag Sample.hotLead) = false /\
   Tags.updateTags Migration.reliableTags
     (Tags.Source.mkDatabase [Sample.hotLead] []) Sample.oneTag
   = (Tags.mkState Sample.oneTag [Tags.GetAll; Tags.Viewer] [],
      Tags.Completed)).
Proof. repeat split. Qed.

(** C2 (amended): a user record ready to be stored is looked up by email;
    if the target holds a user with that email an update call is issued with
    the full record and the identifier of the user found, and a create call
    otherwise. A tag whose source identifier or whose name is among those of
    the existing tags is skipped without any call; any other tag that can be
    built gets a create call. *)
Theorem upsert_decision
        rejects now oldUser newUser ust
        verdict tagRefMap ids names tagData tm tst :
  Users.transformUser now oldUser = inr newUser ->
  Users.orgIds newUser <> [] ->
  Tags.Source.team tagData = Some tm ->
  let nu := Users.setDefaultActiveOrg newUser in
  let found := Users.getUserByEmail (Users.target ust) (Users.email nu) in
  let mongoId := Mongo.toString (Tags.Source._id tagData) in
  let duplicate :=
    Tags.has ids (Some mongoId) || Tags.has names (Tags.Source.tag tagData) in
  Users.calls (fst (Users.processUser rejects now oldUser ust))
  = Users.Mutation (match found with
                    | Some existing => Users.Update (Users.doc_id existing) nu
                    | None => Users.Create nu
                    end)
    :: Users.Query (Users.email nu) found :: Users.calls ust /\
  (duplicate = true ->
   Tags.processTag verdict tagRefMap ids names tagData tst = (tst, None)) /\
  (duplicate = false ->
   forall d,
     Tags.buildTag (Tags.mapOrgId (Some (Mongo.toString tm))) mongoId
                   (Tags.refsOf tagRefMap mongoId) tagData = inr d ->
     exists later,
       Tags.calls (fst (Tags.processTag verdict tagRefMap ids names tagData
                                        tst))
       = later ++ Tags.Mutation (Tags.CreateTagFromMongo d) :: Tags.calls tst
       /\ Tags.requestedRecordTypes later = []).
Proof.
  intros Ht Ho Hteam. cbv zeta. split; [|split].
  - rewrite (processUser_ready rejects now oldUser newUser ust Ht Ho).
    reflexivity.
  - intros Hd. unfold Tags.processTag, Tags.tryCatch.
    rewrite Hteam, Hd. reflexivity.
  - intros Hd d Hb. unfold Tags.processTag.
    assert (Hbody :
      exists later,
        Tags.calls
          (fst (Tags.andThen
                  (Tags.tryCatch (Tags.createTag verdict d)
                                 (fun _ => Tags.skip))
                  (Tags.linkCreated verdict tagRefMap) tst))
        = later ++ Tags.Mutation (Tags.CreateTagFromMongo d) :: Tags.calls tst
        /\ Tags.requestedRecordTypes later = []).
    { unfold Tags.andThen.
      pose proof (tryCatch_skip_total (Tags.createTag verdict d) tst) as Hn.
      assert (Hcalls :
        Tags.calls (fst (Tags.tryCatch (Tags.createTag verdict d)
                                       (fun _ => Tags.skip) tst))
        = Tags.Mutation (Tags.CreateTagFromMongo d) :: Tags.calls tst).
      { unfold Tags.tryCatch. pose proof (calls_createTag verdict d tst) as Hc.
        destruct (Tags.createTag verdict d tst) as [st' [e|]]; exact Hc. }
      destruct (Tags.tryCatch (Tags.createTag verdict d)
                              (fun _ => Tags.skip) tst) as [st' r].
      simpl in Hn, Hcalls. subst r.
      apply (preserves_linkCreated
               (fun st => exists later,
                    Tags.calls st
                    = later ++ Tags.Mutation (Tags.CreateTagFromMongo d)
                               :: Tags.calls tst
                    /\ Tags.requestedRecordTypes later = [])).
      - intros g ref. apply linkRef_adds_no_creation.
      - exists []. split; [exact Hcalls | reflexivity]. }
    unfold Tags.tryCatch at 1. rewrite Hteam, Hd, Hb.
    destruct Hbody as (later & Hl & Hn).
    destruct (Tags.andThen _ _ tst) as [st' [e|]]; exists later; auto.
Qed.

Lemma upsert_decision_witness :
  Users.calls (fst (Users.processUser Migration.reliableUsers 0 Sample.ann
                      (Sample.fresh Users.emptyTable)))
  = [ Users.Mutation (Users.Create Sample.annRecord);
      Users.Query "a@x.com" None ].
Proof.
  exact (proj1 (upsert_decision Migration.reliableUsers 0%Z Sample.ann
                  _ (Sample.fresh Users.emptyTable)
                  Migration.reliableTags [] [] [] Sample.hotLead Sample.teamA
                  (Sample.begun Sample.oneHouse)
                  eq_refl ltac:(discriminate) eq_refl)).
Defined.

(** ** Failures of one record *)

Lemma mapTeam_complete entries :
  forallb Users.entryComplete entries = true <->
  exists ms, Users.mapTeam entries = inr ms.
Proof.
  induction entries as [|t entries IH]; simpl.
  - split; [intros _; now exists [] | reflexivity].
  - unfold Users.entryComplete at 1.
    destruct (Users.Source.teamId t), (Users.Source.status t); simpl;
      try (split; [discriminate | intros [ms H]; discriminate H]).
    rewrite IH. destruct (Users.mapTeam entries) as [e|ms].
    + split; intros [ms H]; discriminate H.
    + split; intros _; eexists; reflexivity.
Qed.


(** A record is built exactly from the documents that have every field and
    a [lastActive] that is a date, whatever the clock. *)
Lemma transformUser_transformable now oldUser :
  Users.transformable oldUser = true <->
  exists newUser, Users.transformUser now oldUser = inr newUser.
Proof.
  unfold Users.transformable, Users.complete, Users.dated,
    Users.transformUser, Users.lastSeenOf, toISOString.
  destruct (Users.Source.email oldUser);
    [|split; [discriminate | intros [n H]; discriminate H]].
  destruct (Users.Source.team oldUser) as [entries|];
    [|split; [discriminate | intros [n H]; discriminate H]].
  pose proof (mapTeam_complete entries) as Hm.
  destruct (Users.mapTeam entries) as [e|ms].
  - destruct (forallb Users.entryComplete entries).
    + destruct (proj1 Hm eq_refl) as [ms H]. discriminate H.
    + split; [discriminate | intros [n H]; discriminate H].
  - rewrite (proj2 Hm (ex_intro _ ms eq_refl)). simpl.
    destruct (Users.Source.lastActive oldUser) as [d|].
    + destruct (validTime d).
      * split; intros _; eexists; reflexivity.
      * split; [discriminate | intros [n H]; discriminate H].
    + split; intros _; eexists; reflexivity.
Qed.


(** The loop leaves at the first document that cannot be transformed, in the
    state the documents before it led to. *)
Lemma processAll_stops rejects before :
  forall clock st bad after e,
    forallb Users.transformable before = true ->
    Users.transformUser (clock (List.length before)) bad = inl e ->
    exists st',
      Users.processAll rejects clock before st = (st', None) /\
      Users.processAll rejects clock (before ++ bad :: after) st
      = (st', Some e).
Proof.
  induction before as [|oldUser before IH]; intros clock st bad after e Hb He.
  - exists st. split; [reflexivity|]. simpl.
    unfold Users.processUser. simpl in He. now rewrite He.
  - simpl in Hb. apply andb_prop in Hb. destruct Hb as [Ho Hb].
    apply (transformUser_transformable (clock 0%nat)) in Ho.
    destruct Ho as [nu Ho]. simpl app. rewrite !processAll_cons.
    destruct (processUser_step rejects (clock 0%nat) oldUser st)
      as [(e' & Ht & _) | [(nu' & _ & _ & Hr) | (nu' & _ & _ & Hr)]];
      [congruence | |]; cbv zeta in Hr; rewrite Hr;
      apply (IH (fun i => clock (S i))); assumption.
Qed.

Lemma processAll_counts rejects users :
  forall clock st st',
    Users.processAll rejects clock users st = (st', None) ->
    Users.migratedCount (Users.vars st') + Users.errorCount (Users.vars st')
    + Users.skippedCount (Users.vars st')
    = Users.migratedCount (Users.vars st) + Users.errorCount (Users.vars st)
      + Users.skippedCount (Users.vars st) + List.length users.
Proof.
  induction users as [|oldUser rest IH]; intros clock st st' H.
  - simpl in H. injection H as <-. simpl. lia.
  - rewrite processAll_cons in H.
    destruct (processUser_step rejects (clock 0%nat) oldUser st)
      as [(e & _ & Hr) | [(nu & _ & _ & Hr) | (nu & _ & _ & Hr)]];
      cbv zeta in Hr; rewrite Hr in H; [discriminate H | |];
      apply IH in H; rewrite H; simpl.
    + lia.
    + destruct (Users.getUserByEmail _ _), (rejects _ _); simpl; lia.
Qed.

(** C3 (the defect): the user script builds [newUser] outside the [try]
    blocks of its loop, so a transform failure is not caught at record
    granularity. When a document of the batch cannot be transformed (a field
    is missing, or [lastActive] is no date) and the documents before it can,
    the exception leaves the loop and the run ends in the outer handler, in
    the very state the documents before it led to: the counters add up to the
    number of those documents, so no error is counted for the failing one,
    and no document after it is looked at. *)
Theorem transform_failure_aborts_user_batch
        rejects clock before bad after t :
  forallb Users.transformable before = true ->
  Users.transformable bad = false ->
  exists e st,
    Users.transformUser (clock (List.length before)) bad = inl e /\
    Users.migrateUsers rejects clock before t
    = (st, Users.Completed (Users.summary (Users.vars st))) /\
    Users.migrateUsers rejects clock (before ++ bad :: after) t
    = (st, Users.Fatal e) /\
    Users.migratedCount (Users.vars st) + Users.errorCount (Users.vars st)
    + Users.skippedCount (Users.vars st) = List.length before.
Proof.
  intros Hb Hbad.
  destruct (Users.transformUser (clock (List.length before)) bad)
    as [e|nu] eqn:He.
  - destruct (processAll_stops rejects before clock
                (Users.mkState t [] (Users.mkCounters 0 0 0)) bad after e
                Hb He) as (st & Hbefore & Hall).
    exists e, st. split; [reflexivity|].
    unfold Users.migrateUsers. rewrite Hbefore, Hall.
    split; [reflexivity|]. split; [reflexivity|].
    apply processAll_counts in Hbefore. simpl in Hbefore. lia.
  - assert (H : Users.transformable bad = true).
    { apply (transformUser_transformable (clock (List.length before))).
      eauto. }
    congruence.
Qed.

Lemma transform_failure_aborts_user_batch_witness :
  Users.migrateUsers Migration.reliableUsers (fun _ => 0%Z)
                     [Sample.nameless; Sample.ann] Users.emptyTable
  = (Users.mkState Users.emptyTable [] (Users.mkCounters 0 0 0),
     Users.Fatal (TypeError "oldUser.email")).
Proof.
  destruct (transform_failure_aborts_user_batch
              Migration.reliableUsers (fun _ => 0%Z) [] Sample.nameless
              [Sample.ann] Users.emptyTable eq_refl eq_refl)
    as (e & st & He & Hbefore & Hrun & _).
  injection He as <-. injection Hbefore as <-. exact Hrun.
Defined.

(** The failing input, evaluated: the document [nameless] has no [email];
    the exception leaves the loop, no error is counted, the run ends in the
    outer handler and [ann], next in the batch, is never looked at. Without
    [nameless] in front, [ann] is migrated. *)
Lemma missing_email_aborts_user_batch :
  Users.migrateUsers Migration.reliableUsers (fun _ => 0%Z)
                     [Sample.nameless; Sample.ann] Users.emptyTable
  = (Users.mkState Users.emptyTable [] (Users.mkCounters 0 0 0),
     Users.Fatal (TypeError "oldUser.email")) /\
  Users.migrateUsers Migration.reliableUsers (fun _ => 0%Z)
                     [Sample.ann] Users.emptyTable
  = (Users.mkState
       (Users.mkTable [Users.mkUserDoc 0 Sample.annRecord] 1)
       [ Users.Mutation (Users.Create Sample.annRecord);
         Users.Query "a@x.com" None ]
       (Users.mkCounters 1 0 0),
     Users.Completed "Migration completed. Migrated: 1, Skipped: 0, Errors: 0").
Proof. split; reflexivity. Qed.

Lemma processTag_unbuildable verdict tagRefMap ids names tagData st :
  Tags.Source.team tagData = None \/ Tags.Source.userId tagData = None ->
  Tags.processTag verdict tagRefMap ids names tagData st = (st, None).
Proof.
  intros H. unfold Tags.processTag, Tags.tryCatch.
  destruct (Tags.Source.team tagData) as [tm|]; [|reflexivity].
  destruct H as [H | H]; [discriminate H|].
  destruct (Tags.has ids _ || Tags.has names _); [reflexivity|].
  unfold Tags.buildTag. rewrite H. reflexivity.
Qed.

(** What the handlers inside the loops do cover. In the tag script a tag that
    cannot be transformed (no [team] or no [userId]) is caught at record
    granularity: the loop goes on with the remaining tags from the same state
    and never ends abruptly (the tag script keeps no count of errors). In the
    user script the handlers cover the writes: a rejected write increments
    the error count, leaves the target as it was, and the loop goes on. *)
Lemma tag_and_write_failures_isolated
        verdict tagRefMap ids names failing rest tst
        rejects now oldUser newUser ust :
  Tags.Source.team failing = None \/ Tags.Source.userId failing = None ->
  Users.transformUser now oldUser = inr newUser ->
  Users.orgIds newUser <> [] ->
  let nu := Users.setDefaultActiveOrg newUser in
  let found := Users.getUserByEmail (Users.target ust) (Users.email nu) in
  let m := match found with
           | Some existing => Users.Update (Users.doc_id existing) nu
           | None => Users.Create nu
           end in
  rejects (Users.target ust) m = true ->
  (Tags.forEach (failing :: rest)
                (Tags.processTag verdict tagRefMap ids names) tst
   = Tags.forEach rest (Tags.processTag verdict tagRefMap ids names) tst /\
   snd (Tags.forEach (failing :: rest)
                     (Tags.processTag verdict tagRefMap ids names) tst)
   = None) /\
  Users.processUser rejects now oldUser ust
  = (Users.mkState (Users.target ust)
       (Users.Mutation m :: Users.Query (Users.email nu) found
        :: Users.calls ust)
       (Users.mkCounters (Users.migratedCount (Users.vars ust))
                         (S (Users.errorCount (Users.vars ust)))
                         (Users.skippedCount (Users.vars ust))),
     None).
Proof.
  intros Hf Ht Ho. cbv zeta. intros Hr. split; [split|].
  - simpl. unfold Tags.andThen.
    rewrite (processTag_unbuildable verdict tagRefMap ids names failing tst Hf).
    reflexivity.
  - apply forEach_total. intros x. apply processTag_total.
  - rewrite (processUser_ready rejects now oldUser newUser ust Ht Ho).
    cbv zeta. rewrite Hr.
    destruct (Users.getUserByEmail _ _); reflexivity.
Qed.

Lemma tag_and_write_failures_isolated_witness :
  Tags.forEach [Sample.orphan; Sample.hotLead]
               (Tags.processTag Migration.reliableTags [] [] [])
               (Sample.begun Sample.oneHouse)
  = Tags.forEach [Sample.hotLead]
                 (Tags.processTag Migration.reliableTags [] [] [])
                 (Sample.begun Sample.oneHouse) /\
  Users.errorCount
    (Users.vars (fst (Users.processUser Sample.refusing 0 Sample.ann
                        (Sample.fresh Users.emptyTable)))) = 1%nat.
Proof.
  pose proof (tag_and_write_failures_isolated
                Migration.reliableTags [] [] [] Sample.orphan [Sample.hotLead]
                (Sample.begun Sample.oneHouse)
                Sample.refusing 0%Z Sample.ann _
                (Sample.fresh Users.emptyTable)
                (or_intror eq_refl) eq_refl ltac:(discriminate) eq_refl)
    as [[H1 _] H2].
  split; [exact H1 | rewrite H2; reflexivity].
Defined.

(** ** Paginated extraction *)

Section ExtractionFacts.

Variables (token property : Type).
Variable getProperties : option token -> Properties.pageResult token property.

Lemma fetchAll_more_fuel fuel :
  forall st final fuel',
    Properties.fetchAll getProperties fuel st = Some final -> fuel <= fuel' ->
    Properties.fetchAll getProperties fuel' st = Some final.
Proof.
  induction fuel as [|fuel IH]; intros st final fuel' H Hle.
  - destruct fuel'; simpl in *; destruct (Properties.done st);
      try exact H; discriminate H.
  - destruct fuel' as [|fuel']; [lia|].
    simpl in *. destruct (Properties.done st); [exact H|].
    destruct (List.length _ =? 0)%nat; [exact H|].
    apply IH; [exact H | lia].
Qed.

Variable remaining : option token -> nat.

Hypothesis progress :
  forall c,
    let r := getProperties c in
    Properties.page r = [] \/ Properties.isDone r = true \/
    remaining (Some (Properties.continueCursor r)) < remaining c.

(** From any state in which the loop is still running, enough fuel makes it
    stop, having appended the pages of the responses it received. *)
Lemma fetchAll_runs fuel :
  forall st,
    Properties.done st = false ->
    remaining (Properties.cursor st) < fuel ->
    exists final earlier last,
      Properties.fetchAll getProperties fuel st = Some final /\
      rev (Properties.responses final)
        = rev (Properties.responses st) ++ earlier ++ [last] /\
      Properties.allProperties final
        = Properties.allProperties st
          ++ concat (map (@Properties.page _ _) (earlier ++ [last])) /\
      Properties.followed getProperties (Properties.cursor st)
                          (earlier ++ [last]) /\
      Forall (@Properties.goesOn _ _) earlier /\
      Properties.stops last.
Proof.
  induction fuel as [|fuel IH]; intros st Hd Hlt; [lia|].
  simpl. rewrite Hd.
  pose proof (progress (Properties.cursor st)) as Hp. cbv zeta in Hp.
  set (r := getProperties (Properties.cursor st)) in *.
  destruct (List.length (Properties.page r) =? 0)%nat eqn:El.
  - apply length_zero_nil in El.
    eexists. exists [], r. simpl. repeat split; auto.
    + rewrite El. simpl. now rewrite app_nil_r.
    + now left.
  - assert (Hne : Properties.page r <> []).
    { intros E. rewrite E in El. discriminate El. }
    destruct (Properties.isDone r) eqn:Edone.
    + eexists. exists [], r.
      destruct fuel; simpl; repeat split; auto;
        try (now rewrite app_nil_r); now right.
    + destruct Hp as [Hp | [Hp | Hp]]; [contradiction | congruence |].
      destruct (IH (Properties.mkLoopState
                      (Properties.allProperties st ++ Properties.page r)
                      (Some (Properties.continueCursor r))
                      (Properties.isDone r)
                      (S (Properties.totalPages st))
                      (r :: Properties.responses st)))
        as (final & earlier & last & Hf & Hr & Ha & Hfo & Hg & Hs).
      * exact Edone.
      * simpl. lia.
      * exists final, (r :: earlier), last. simpl in *.
        rewrite Edone in Hf.
        repeat split; auto.
        -- rewrite Hr, <- app_assoc. reflexivity.
        -- rewrite Ha, <- app_assoc. reflexivity.
        -- constructor; [split; assumption | exact Hg].
Qed.

End ExtractionFacts.

(** C9: when every response either is empty, signals completion or moves the
    cursor forward (the number [remaining] of pages left decreases), the
    extraction loop terminates: given enough fuel it returns, the last
    response it received is empty or signals completion and none before it
    is, each page was requested at the cursor the previous response gave,
    and what it accumulated is exactly the concatenation of the pages
    received. *)
Theorem extraction_terminates
        (token property : Type)
        (getProperties : option token -> Properties.pageResult token property)
        (remaining : option token -> nat) :
  (forall c,
      let r := getProperties c in
      Properties.page r = [] \/ Properties.isDone r = true \/
      remaining (Some (Properties.continueCursor r)) < remaining c) ->
  exists final earlier last,
    (forall fuel,
        remaining None < fuel ->
        Properties.fetchAll getProperties fuel (Properties.initial _ _)
        = Some final) /\
    rev (Properties.responses final) = earlier ++ [last] /\
    Properties.followed getProperties None (earlier ++ [last]) /\
    Forall (@Properties.goesOn _ _) earlier /\
    Properties.stops last /\
    Properties.allProperties final
    = concat (map (@Properties.page _ _) (earlier ++ [last])).
Proof.
  intros Hp.
  destruct (fetchAll_runs token property getProperties remaining Hp
              (S (remaining None)) (Properties.initial _ _) eq_refl)
    as (final & earlier & last & Hf & Hr & Ha & Hfo & Hg & Hs).
  { simpl. lia. }
  exists final, earlier, last. simpl in *. repeat split; auto.
  intros fuel Hlt.
  apply (fetchAll_more_fuel token property getProperties (S (remaining None)));
    [exact Hf | lia].
Qed.

Lemma extraction_terminates_witness :
  exists final earlier last,
    (forall fuel,
        Sample.pagesLeft None < fuel ->
        Properties.fetchAll Sample.twoPages fuel (Properties.initial _ _)
        = Some final) /\
    rev (Properties.responses final) = earlier ++ [last] /\
    Properties.followed Sample.twoPages None (earlier ++ [last]) /\
    Forall (@Properties.goesOn _ _) earlier /\
    Properties.stops last /\
    Properties.allProperties final
    = concat (map (@Properties.page _ _) (earlier ++ [last])).
Proof.
  apply (extraction_terminates nat nat Sample.twoPages Sample.pagesLeft).
  intros [[|[|n]]|]; simpl; auto; right; right; lia.
Defined.

(** The sample extraction returns the three properties, in order. *)
Example sample_extraction :
  option_map (@Properties.allProperties _ _)
             (Properties.fetchAll Sample.twoPages 3 (Properties.initial _ _))
  = Some [11; 12; 13].
Proof. reflexivity. Qed.

(** ** Re-running the user script *)

Lemma getUserByEmail_known t mail :
  Users.known mail (Users.docs t) = true <->
  exists d, Users.getUserByEmail t mail = Some d.
Proof.
  unfold Users.getUserByEmail, Users.known.
  induction (Users.docs t) as [|d ds IH]; simpl.
  - split; [discriminate | intros [d H]; discriminate H].
  - destruct (String.eqb (Users.email (Users.fields d)) mail).
    + split; [intros _; now exists d | reflexivity].
    + exact IH.
Qed.

Lemma getUserByEmail_unknown t mail :
  Users.known mail (Users.docs t) = false <->
  Users.getUserByEmail t mail = None.
Proof.
  unfold Users.getUserByEmail, Users.known.
  induction (Users.docs t) as [|d ds IH]; simpl.
  - split; reflexivity.
  - destruct (String.eqb (Users.email (Users.fields d)) mail).
    + split; discriminate.
    + exact IH.
Qed.

(** Replacing by identifier the first document with an email is [put]. *)
Lemma update_found_put u ds next existing :
  NoDup (map Users.doc_id ds) ->
  find (fun d => String.eqb (Users.email (Users.fields d)) (Users.email u)) ds
  = Some existing ->
  map (fun d => if Nat.eqb (Users.doc_id d) (Users.doc_id existing)
                then Users.mkUserDoc (Users.doc_id existing) u else d) ds
  = Users.put u ds next.
Proof.
  induction ds as [|d ds IH]; simpl; intros Hnd Hf; [discriminate|].
  inversion Hnd as [|? ? Hnotin Hnd']; subst.
  destruct (String.eqb (Users.email (Users.fields d)) (Users.email u)).
  - injection Hf as <-. rewrite Nat.eqb_refl. f_equal.
    rewrite <- (map_id ds) at 2. apply map_ext_in. intros d' Hin.
    destruct (Nat.eqb (Users.doc_id d') (Users.doc_id d)) eqn:E;
      [|reflexivity].
    apply Nat.eqb_eq in E. exfalso. apply Hnotin. rewrite <- E.
    now apply in_map.
  - destruct (Nat.eqb (Users.doc_id d) (Users.doc_id existing)) eqn:E.
    + apply Nat.eqb_eq in E. exfalso. apply Hnotin. rewrite E.
      apply in_map. eapply find_some, Hf.
    + f_equal. now apply IH.
Qed.

Lemma put_unknown u ds next :
  Users.known (Users.email u) ds = false ->
  Users.put u ds next = ds ++ [Users.mkUserDoc next u].
Proof.
  unfold Users.known. induction ds as [|d ds IH]; simpl; intros H.
  - reflexivity.
  - destruct (String.eqb (Users.email (Users.fields d)) (Users.email u));
      [discriminate H|]. f_equal. now apply IH.
Qed.

Lemma upsert_store u t :
  Users.wellFormed t -> Users.upsert u t = Users.store u t.
Proof.
  intros [Hnd _]. unfold Users.upsert, Users.store.
  destruct (Users.getUserByEmail t (Users.email u)) as [existing|] eqn:Ef.
  - assert (Hk : Users.known (Users.email u) (Users.docs t) = true).
    { apply getUserByEmail_known. now exists existing. }
    rewrite Hk. simpl. f_equal. now apply update_found_put.
  - apply getUserByEmail_unknown in Ef. rewrite Ef. simpl. f_equal.
    symmetry. now apply put_unknown.
Qed.

Lemma put_ids_known u ds next :
  Users.known (Users.email u) ds = true ->
  map Users.doc_id (Users.put u ds next) = map Users.doc_id ds.
Proof.
  unfold Users.known. induction ds as [|d ds IH]; simpl; intros H.
  - discriminate.
  - destruct (String.eqb (Users.email (Users.fields d)) (Users.email u));
      simpl; [reflexivity|]. f_equal. now apply IH.
Qed.

Lemma store_wellFormed u t :
  Users.wellFormed t -> Users.wellFormed (Users.store u t).
Proof.
  intros [Hnd Hlt]. unfold Users.wellFormed, Users.store. simpl.
  destruct (Users.known (Users.email u) (Users.docs t)) eqn:Hk.
  - rewrite put_ids_known by exact Hk. split; [exact Hnd|].
    apply Forall_forall. intros d Hin.
    assert (Hid : In (Users.doc_id d) (map Users.doc_id (Users.docs t))).
    { rewrite <- (put_ids_known u (Users.docs t) (Users.nextId t) Hk).
      now apply in_map. }
    apply in_map_iff in Hid. destruct Hid as (d' & Heq & Hin').
    rewrite <- Heq. rewrite Forall_forall in Hlt. now apply Hlt.
  - rewrite put_unknown by exact Hk. rewrite map_app. simpl. split.
    + apply NoDup_app; [exact Hnd | repeat constructor; intros [] |].
      intros x Hin [Hx | []]. subst x.
      apply in_map_iff in Hin. destruct Hin as (d & Heq & Hin).
      rewrite Forall_forall in Hlt. specialize (Hlt d Hin). lia.
    + apply Forall_app. split.
      * eapply Forall_impl; [|exact Hlt]. simpl. intros; lia.
      * repeat constructor.
Qed.

Lemma emptyTable_wellFormed : Users.wellFormed Users.emptyTable.
Proof. split; constructor. Qed.

Lemma known_put mail u ds next :
  Users.known mail (Users.put u ds next)
  = Users.known mail ds || String.eqb (Users.email u) mail.
Proof.
  unfold Users.known. induction ds as [|d ds IH]; simpl.
  - now rewrite orb_false_r.
  - destruct (String.eqb (Users.email (Users.fields d)) (Users.email u)) eqn:E;
      simpl.
    + apply String.eqb_eq in E. rewrite E.
      destruct (String.eqb (Users.email u) mail); simpl; [reflexivity|].
      now rewrite orb_false_r.
    + rewrite IH. now rewrite orb_assoc.
Qed.

Lemma known_store mail u t :
  Users.known mail (Users.docs (Users.store u t))
  = Users.known mail (Users.docs t) || String.eqb (Users.email u) mail.
Proof. apply known_put. Qed.

(** The identifier offered to [put] does not matter when the email is known. *)
Lemma put_known_next u ds n n' :
  Users.known (Users.email u) ds = true ->
  Users.put u ds n = Users.put u ds n'.
Proof.
  unfold Users.known. induction ds as [|d ds IH]; simpl; intros H.
  - discriminate.
  - destruct (String.eqb (Users.email (Users.fields d)) (Users.email u));
      [reflexivity|]. f_equal. now apply IH.
Qed.

(** A later record with the same email absorbs an earlier one. *)
Lemma put_absorb u u' ds n n' :
  Users.email u = Users.email u' ->
  Users.put u' (Users.put u ds n) n' = Users.put u' ds n.
Proof.
  intros He. induction ds as [|d ds IH]; simpl.
  - rewrite He, String.eqb_refl. reflexivity.
  - rewrite <- He.
    destruct (String.eqb (Users.email (Users.fields d)) (Users.email u)) eqn:E;
      simpl.
    + rewrite <- He, String.eqb_refl. reflexivity.
    + rewrite <- He, E. f_equal. exact IH.
Qed.

Lemma store_absorb u u' t :
  Users.email u = Users.email u' ->
  Users.store u' (Users.store u t) = Users.store u' t.
Proof.
  intros He. unfold Users.store at 1 3. rewrite known_store. simpl.
  rewrite put_absorb by exact He.
  rewrite He, String.eqb_refl, orb_true_r. reflexivity.
Qed.

(** Records with different emails commute when one of the emails is known. *)
Lemma put_commute u v ds n n1 n2 :
  Users.email u <> Users.email v ->
  Users.known (Users.email u) ds = true ->
  Users.put u (Users.put v ds n) n1 = Users.put v (Users.put u ds n2) n.
Proof.
  intros Hne. induction ds as [|d ds IH]; simpl; intros Hk.
  - discriminate.
  - destruct (String.eqb (Users.email (Users.fields d)) (Users.email u)) eqn:Eu.
    + apply String.eqb_eq in Eu.
      assert (Ev : String.eqb (Users.email (Users.fields d)) (Users.email v)
                   = false).
      { apply String.eqb_neq. congruence. }
      rewrite Ev. simpl. rewrite Eu, String.eqb_refl.
      assert (Euv : String.eqb (Users.email u) (Users.email v) = false).
      { now apply String.eqb_neq. }
      rewrite Euv. reflexivity.
    + simpl in Hk. unfold Users.known in IH.
      destruct (String.eqb (Users.email (Users.fields d)) (Users.email v))
        eqn:Ev; simpl.
      * assert (Evu : String.eqb (Users.email v) (Users.email u) = false).
        { apply String.eqb_neq. congruence. }
        rewrite Evu, Ev. f_equal. now apply put_known_next.
      * rewrite Eu, Ev. f_equal. now apply IH.
Qed.

Lemma store_commute u v t :
  Users.email u <> Users.email v ->
  Users.known (Users.email u) (Users.docs t) = true ->
  Users.store u (Users.store v t) = Users.store v (Users.store u t).
Proof.
  intros Hne Hk. unfold Users.store at 1 3. rewrite !known_store. simpl.
  rewrite Hk. simpl.
  assert (Evu : String.eqb (Users.email v) (Users.email u) = false).
  { apply String.eqb_neq. congruence. }
  assert (Euv : String.eqb (Users.email u) (Users.email v) = false).
  { now apply String.eqb_neq. }
  rewrite Euv, orb_false_r. f_equal.
  now apply put_commute.
Qed.

Lemma known_stored mail t rs :
  Users.known mail (Users.docs t) = true ->
  Users.known mail (Users.docs (fold_right Users.store t rs)) = true.
Proof.
  intros H. induction rs as [|r rs IH]; cbn [fold_right]; [exact H|].
  rewrite known_store, IH. reflexivity.
Qed.

Lemma stored_known t rs y :
  In y rs ->
  Users.known (Users.email y) (Users.docs (fold_right Users.store t rs)) = true.
Proof.
  induction rs as [|r rs IH]; cbn [fold_right]; intros Hin; [contradiction|].
  rewrite known_store. destruct Hin as [-> | Hin].
  - rewrite String.eqb_refl. apply orb_true_r.
  - rewrite IH by exact Hin. reflexivity.
Qed.

(** A record written before a series of records whose emails are all known is
    forgotten once a record with its email is written after the series. *)
Lemma store_overwritten x1 x2 t rs :
  Users.email x1 = Users.email x2 ->
  (forall y, In y rs -> Users.known (Users.email y) (Users.docs t) = true) ->
  Users.store x2 (fold_right Users.store (Users.store x1 t) rs)
  = Users.store x2 (fold_right Users.store t rs).
Proof.
  intros He. revert x2 He.
  induction rs as [|y rs IH]; intros x2 He Hk; cbn [fold_right].
  - now apply store_absorb.
  - assert (Hy : Users.known (Users.email y) (Users.docs t) = true).
    { apply Hk. now left. }
    assert (Hrs : forall z, In z rs ->
                    Users.known (Users.email z) (Users.docs t) = true).
    { intros z Hz. apply Hk. now right. }
    destruct (String.eqb (Users.email y) (Users.email x2)) eqn:E.
    + apply String.eqb_eq in E. rewrite !(store_absorb y x2) by exact E.
      now apply IH.
    + apply String.eqb_neq in E.
      rewrite <- !(store_commute y x2) by
        (try exact E; apply known_stored; try exact Hy;
         rewrite known_store, Hy; reflexivity).
      f_equal. now apply IH.
Qed.

(** Writing a series of records over the result of writing a series with the
    same emails gives what writing the second series alone gives. *)
Lemma store_twice t rs1 :
  forall rs2,
    map Users.email rs1 = map Users.email rs2 ->
    fold_right Users.store (fold_right Users.store t rs1) rs2
    = fold_right Users.store t rs2.
Proof.
  induction rs1 as [|x1 rs1 IH]; intros [|x2 rs2] He;
    cbn [fold_right map] in *; try discriminate He; [reflexivity|].
  injection He as He1 He.
  rewrite store_overwritten.
  - f_equal. now apply IH.
  - exact He1.
  - intros y Hy.
    assert (Hin : In (Users.email y) (map Users.email rs1)).
    { rewrite He. now apply in_map. }
    apply in_map_iff in Hin. destruct Hin as (y' & Heq & Hy').
    rewrite <- Heq. now apply stored_known.
Qed.

Lemma stored_wellFormed t rs :
  Users.wellFormed t -> Users.wellFormed (fold_right Users.store t rs).
Proof.
  intros H. induction rs as [|r rs IH]; cbn [fold_right]; [exact H|].
  now apply store_wellFormed.
Qed.

(** *** The run as a series of writes *)

Lemma processUser_skipped rejects now oldUser newUser st :
  Users.transformUser now oldUser = inr newUser ->
  (List.length (Users.orgIds newUser) =? 0)%nat = true ->
  Users.processUser rejects now oldUser st
  = (Users.mkState (Users.target st) (Users.calls st)
       (Users.mkCounters (Users.migratedCount (Users.vars st))
                         (Users.errorCount (Users.vars st))
                         (S (Users.skippedCount (Users.vars st)))),
     None).
Proof.
  intros Ht Ho. unfold Users.processUser. rewrite Ht, Ho. reflexivity.
Qed.

Lemma processUser_reliable now oldUser newUser st :
  Users.transformUser now oldUser = inr newUser ->
  (List.length (Users.orgIds newUser) =? 0)%nat = false ->
  exists st',
    Users.processUser Migration.reliableUsers now oldUser st = (st', None) /\
    Users.target st'
    = Users.upsert (Users.setDefaultActiveOrg newUser) (Users.target st) /\
    Users.calls st'
    = Users.Mutation
        (match Users.getUserByEmail (Users.target st)
                 (Users.email (Users.setDefaultActiveOrg newUser)) with
         | Some existing =>
             Users.Update (Users.doc_id existing)
                          (Users.setDefaultActiveOrg newUser)
         | None => Users.Create (Users.setDefaultActiveOrg newUser)
         end)
      :: Users.Query (Users.email (Users.setDefaultActiveOrg newUser))
           (Users.getUserByEmail (Users.target st)
              (Users.email (Users.setDefaultActiveOrg newUser)))
      :: Users.calls st.
Proof.
  intros Ht Ho.
  assert (Hne : Users.orgIds newUser <> []).
  { intros E. rewrite E in Ho. discriminate Ho. }
  rewrite (processUser_ready Migration.reliableUsers now oldUser newUser st
             Ht Hne).
  cbv zeta. eexists. split; [reflexivity|]. simpl. split; [|reflexivity].
  unfold Users.upsert. destruct (Users.getUserByEmail _ _); reflexivity.
Qed.

(** On a target that performs every write, a run leaves the table obtained by
    writing the prepared records in order. *)
Lemma processAll_stores users :
  forall clock st,
    Users.wellFormed (Users.target st) ->
    Users.target (fst (Users.processAll Migration.reliableUsers clock users st))
    = fold_right Users.store (Users.target st)
                 (rev (Users.prepared clock users)).
Proof.
  induction users as [|oldUser rest IH]; intros clock st Hwf.
  - reflexivity.
  - rewrite processAll_cons. simpl Users.prepared.
    destruct (Users.transformUser (clock 0%nat) oldUser) as [e|newUser] eqn:Ht.
    + unfold Users.processUser. rewrite Ht. reflexivity.
    + destruct (List.length (Users.orgIds newUser) =? 0)%nat eqn:Ho.
      * rewrite (processUser_skipped _ _ _ _ st Ht Ho).
        rewrite IH by exact Hwf. reflexivity.
      * destruct (processUser_reliable _ _ _ st Ht Ho)
          as (st' & Hrun & Htarget & _).
        rewrite Hrun. rewrite upsert_store in Htarget by exact Hwf.
        rewrite IH by (rewrite Htarget; now apply store_wellFormed).
        rewrite Htarget. simpl rev. rewrite fold_right_app. reflexivity.
Qed.

(** The clock only shows in [presence.lastSeen]. *)
Lemma transformUser_clock c1 c2 oldUser :
  match Users.transformUser c1 oldUser, Users.transformUser c2 oldUser with
  | inl e1, inl e2 => e1 = e2
  | inr n1, inr n2 =>
      Users.email n1 = Users.email n2 /\ Users.orgIds n1 = Users.orgIds n2
  | _, _ => False
  end.
Proof.
  unfold Users.transformUser.
  destruct (Users.Source.email oldUser); [|reflexivity].
  destruct (Users.Source.team oldUser) as [entries|]; [|reflexivity].
  destruct (Users.mapTeam entries); [reflexivity|].
  unfold Users.lastSeenOf, toISOString.
  destruct (Users.Source.lastActive oldUser) as [d|]; [|simpl; auto].
  destruct (validTime d); simpl; auto.
Qed.

Lemma transformUser_lastActive c1 c2 oldUser :
  Users.Source.lastActive oldUser <> None ->
  Users.transformUser c1 oldUser = Users.transformUser c2 oldUser.
Proof.
  intros H. unfold Users.transformUser.
  destruct (Users.Source.lastActive oldUser); [reflexivity | congruence].
Qed.

Lemma prepared_emails users :
  forall c1 c2,
    map Users.email (Users.prepared c1 users)
    = map Users.email (Users.prepared c2 users).
Proof.
  induction users as [|oldUser rest IH]; intros c1 c2; simpl; [reflexivity|].
  pose proof (transformUser_clock (c1 0%nat) (c2 0%nat) oldUser) as H.
  destruct (Users.transformUser (c1 0%nat) oldUser) as [e1|n1];
    destruct (Users.transformUser (c2 0%nat) oldUser) as [e2|n2];
    try contradiction; [reflexivity|].
  destruct H as [He Ho]. rewrite Ho.
  destruct (List.length (Users.orgIds n2) =? 0)%nat; simpl.
  - apply IH.
  - rewrite !setDefaultActiveOrg_email, He. f_equal. apply IH.
Qed.

Lemma prepared_lastActive users :
  forall c1 c2,
    (forall u, In u users -> Users.Source.lastActive u <> None) ->
    Users.prepared c1 users = Users.prepared c2 users.
Proof.
  induction users as [|oldUser rest IH]; intros c1 c2 H; simpl; [reflexivity|].
  rewrite (transformUser_lastActive (c1 0%nat) (c2 0%nat) oldUser)
    by (apply H; now left).
  destruct (Users.transformUser (c2 0%nat) oldUser) as [e|n]; [reflexivity|].
  rewrite (IH (fun i => c1 (S i)) (fun i => c2 (S i)))
    by (intros u Hu; apply H; now right).
  reflexivity.
Qed.

(** Against a table that knows every email of the run, no user is created. *)
Lemma processAll_creates_nothing users :
  forall clock st,
    (forall y, In y (Users.prepared clock users) ->
               Users.known (Users.email y) (Users.docs (Users.target st))
               = true) ->
    Users.wellFormed (Users.target st) ->
    existsb Migration.isCreateUser
      (Users.calls (fst (Users.processAll Migration.reliableUsers clock users
                                          st)))
    = existsb Migration.isCreateUser (Users.calls st).
Proof.
  induction users as [|oldUser rest IH]; intros clock st Hk Hwf.
  - reflexivity.
  - rewrite processAll_cons. simpl Users.prepared in Hk.
    destruct (Users.transformUser (clock 0%nat) oldUser) as [e|newUser] eqn:Ht.
    + unfold Users.processUser. rewrite Ht. reflexivity.
    + destruct (List.length (Users.orgIds newUser) =? 0)%nat eqn:Ho.
      * rewrite (processUser_skipped _ _ _ _ st Ht Ho).
        rewrite IH; [reflexivity | exact Hk | exact Hwf].
      * destruct (processUser_reliable _ _ _ st Ht Ho)
          as (st' & Hrun & Htarget & Hcalls).
        rewrite Hrun. rewrite upsert_store in Htarget by exact Hwf.
        rewrite IH.
        -- rewrite Hcalls.
           assert (Hknown : Users.known
                              (Users.email (Users.setDefaultActiveOrg newUser))
                              (Users.docs (Users.target st)) = true).
           { apply Hk. now left. }
           apply getUserByEmail_known in Hknown. destruct Hknown as [d Hd].
           rewrite Hd. reflexivity.
        -- intros y Hy. rewrite Htarget, known_store, Hk; [reflexivity|].
           now right.
        -- rewrite Htarget. now apply store_wellFormed.
Qed.

(** Two runs of the user script leave the table one run at the second clock
    leaves, and the second run creates nothing. *)
Lemma migrateUsers_twice c1 c2 users t :
  Users.wellFormed t ->
  let first := fst (Users.migrateUsers Migration.reliableUsers c1 users t) in
  let second :=
    fst (Users.migrateUsers Migration.reliableUsers c2 users
                            (Users.target first)) in
  Users.target second
  = Users.target (fst (Users.migrateUsers Migration.reliableUsers c2 users t))
  /\ existsb Migration.isCreateUser (Users.calls second) = false.
Proof.
  intros Hwf. cbv zeta.
  assert (Hrun : forall c t',
             fst (Users.migrateUsers Migration.reliableUsers c users t')
             = fst (Users.processAll Migration.reliableUsers c users
                      (Users.mkState t' [] (Users.mkCounters 0 0 0)))).
  { intros c t'. unfold Users.migrateUsers.
    destruct (Users.processAll _ _ _ _) as [st [e|]]; reflexivity. }
  rewrite !Hrun.
  assert (Hfirst :
    Users.target
      (fst (Users.processAll Migration.reliableUsers c1 users
              (Users.mkState t [] (Users.mkCounters 0 0 0))))
    = fold_right Users.store t (rev (Users.prepared c1 users))).
  { now rewrite processAll_stores. }
  rewrite Hfirst. split.
  - rewrite !processAll_stores; simpl Users.target;
      [| exact Hwf | now apply stored_wellFormed].
    apply store_twice. rewrite !map_rev. f_equal. apply prepared_emails.
  - rewrite processAll_creates_nothing; simpl Users.target.
    + reflexivity.
    + intros y Hy.
      assert (Hin : In (Users.email y)
                       (map Users.email (rev (Users.prepared c1 users)))).
      { rewrite map_rev, (prepared_emails users c1 c2).
        apply in_rev. rewrite rev_involutive. now apply in_map. }
      apply in_map_iff in Hin. destruct Hin as (y' & Heq & Hy').
      rewrite <- Heq. now apply stored_known.
    + now apply stored_wellFormed.
Qed.

(** ** Re-running the tag script *)

Lemma optStringEqb_refl x : Tags.optStringEqb x x = true.
Proof. destruct x; simpl; [apply String.eqb_refl | reflexivity]. Qed.

Lemma tagDocs_linkRef verdict g ref st :
  Tags.tagDocs (Tags.target (fst (Tags.linkRef verdict g ref st)))
  = Tags.tagDocs (Tags.target st) /\
  Tags.viewer (Tags.target (fst (Tags.linkRef verdict g ref st)))
  = Tags.viewer (Tags.target st).
Proof.
  pose proof (linkRef_cases verdict g ref st) as Hc. cbv zeta in Hc.
  destruct (Tags.Source.refWith ref) as [refWith|];
    [|rewrite Hc; split; reflexivity].
  destruct (Tags.getByMongoId (Tags.target st) _) as [rec|].
  - destruct Hc as [[_ Hc] | [_ Hc]]; rewrite Hc; [split; reflexivity|].
    match goal with
    | |- context [Tags.addTagToRecord verdict ?r g ?s] =>
        destruct (target_addTagToRecord verdict r g s) as [Ht | Ht]
    end; rewrite Ht; split; reflexivity.
  - rewrite Hc. split; reflexivity.
Qed.

Lemma createTag_cases verdict d st :
  Tags.target (fst (Tags.createTag verdict d st)) = Tags.target st \/
  Tags.target (fst (Tags.createTag verdict d st))
  = Tags.apply (Tags.target st) (Tags.CreateTagFromMongo d).
Proof.
  unfold Tags.createTag. destruct (verdict _ _); simpl; auto.
Qed.

Lemma alreadyExists_created t d tagData :
  Tags.alreadyExists t tagData = true ->
  Tags.alreadyExists (Tags.apply t (Tags.CreateTagFromMongo d)) tagData = true.
Proof.
  unfold Tags.alreadyExists, Tags.has. simpl. rewrite !map_app, !existsb_app.
  intros H. apply orb_prop in H. destruct H as [H | H]; rewrite H; simpl;
    [reflexivity | apply orb_true_r].
Qed.

(** A tag found among the existing ones stays so whatever the script does. *)
Lemma alreadyExists_kept verdict tagData :
  (forall d, Tags.preserves
               (fun st => Tags.alreadyExists (Tags.target st) tagData = true)
               (Tags.createTag verdict d)) /\
  (forall g ref, Tags.preserves
                   (fun st => Tags.alreadyExists (Tags.target st) tagData = true)
                   (Tags.linkRef verdict g ref)).
Proof.
  split.
  - intros d st H. destruct (createTag_cases verdict d st) as [E | E];
      rewrite E; [exact H | now apply alreadyExists_created].
  - intros g ref st H. unfold Tags.alreadyExists in *.
    destruct (tagDocs_linkRef verdict g ref st) as [E _]. now rewrite E.
Qed.

Lemma processTag_keeps_existing verdict m ids names x tagData :
  Tags.preserves
    (fun st => Tags.alreadyExists (Tags.target st) tagData = true)
    (Tags.processTag verdict m ids names x).
Proof.
  destruct (alreadyExists_kept verdict tagData) as [Hc Hl].
  apply preserves_processTag; [intros; apply Hc | exact Hl].
Qed.

(** On a target that performs every write, a tag that passes the duplicate
    check and can be built is among the target's tags afterwards. *)
Lemma processTag_registers m ids names tagData st :
  Tags.Source.team tagData <> None ->
  Tags.Source.userId tagData <> None ->
  Tags.has ids (Some (Mongo.toString (Tags.Source._id tagData)))
  || Tags.has names (Tags.Source.tag tagData) = false ->
  Tags.alreadyExists
    (Tags.target
       (fst (Tags.processTag Migration.reliableTags m ids names tagData st)))
    tagData = true.
Proof.
  intros Hteam Huser Hdup. unfold Tags.processTag.
  destruct (Tags.Source.team tagData) as [tm|] eqn:Et; [|congruence].
  destruct (Tags.Source.userId tagData) as [uid|] eqn:Eu; [|congruence].
  unfold Tags.tryCatch at 1. rewrite Hdup.
  unfold Tags.buildTag. rewrite Eu.
  match goal with
  | |- Tags.alreadyExists
         (Tags.target (fst (match ?run with _ => _ end))) _ = _ =>
      assert (H : Tags.alreadyExists (Tags.target (fst run)) tagData = true);
        [|destruct run as [st' [e|]]; exact H]
  end.
  destruct (alreadyExists_kept Migration.reliableTags tagData) as [_ Hl].
  match goal with
  | |- context [Tags.andThen ?a ?b st] =>
      assert (Hcreated :
                Tags.alreadyExists (Tags.target (fst (a st))) tagData = true)
  end.
  { unfold Tags.tryCatch, Tags.createTag, Migration.reliableTags.
    simpl. unfold Tags.alreadyExists, Tags.has. simpl.
    rewrite !map_app, !existsb_app. simpl.
    rewrite optStringEqb_refl. simpl. rewrite !orb_true_r. reflexivity. }
  unfold Tags.andThen.
  match goal with
  | |- context [match ?x with _ => _ end] =>
      destruct x as [st1 [e|]]; [exact Hcreated|]
  end.
  now apply (preserves_linkCreated _ _ _ Hl).
Qed.

Lemma forEach_processTag_cons verdict m ids names x l st :
  Tags.forEach (x :: l) (Tags.processTag verdict m ids names) st
  = Tags.forEach l (Tags.processTag verdict m ids names)
                 (fst (Tags.processTag verdict m ids names x st)).
Proof.
  simpl. unfold Tags.andThen.
  pose proof (processTag_total verdict m ids names x st) as Hn.
  destruct (Tags.processTag verdict m ids names x st) as [st' r].
  simpl in *. now subst r.
Qed.

Lemma forEach_keeps_existing verdict m ids names l tagData :
  Tags.preserves
    (fun st => Tags.alreadyExists (Tags.target st) tagData = true)
    (Tags.forEach l (Tags.processTag verdict m ids names)).
Proof.
  apply preserves_forEach. intros x _. apply processTag_keeps_existing.
Qed.

(** After the loop, every tag of the batch that can be built is among the
    target's tags, provided those that failed the duplicate check were. *)
Lemma forEach_registers m ids names l :
  forall st tagData,
    In tagData l ->
    Tags.Source.team tagData <> None ->
    Tags.Source.userId tagData <> None ->
    (Tags.has ids (Some (Mongo.toString (Tags.Source._id tagData)))
     || Tags.has names (Tags.Source.tag tagData) = true ->
     Tags.alreadyExists (Tags.target st) tagData = true) ->
    Tags.alreadyExists
      (Tags.target
         (fst (Tags.forEach l (Tags.processTag Migration.reliableTags m ids
                                               names) st)))
      tagData = true.
Proof.
  induction l as [|x l IH]; intros st tagData Hin Hteam Huser Hdup;
    [contradiction|].
  rewrite forEach_processTag_cons.
  destruct Hin as [-> | Hin].
  - apply forEach_keeps_existing.
    destruct (Tags.has ids _ || Tags.has names _) eqn:E.
    + apply processTag_keeps_existing. now apply Hdup.
    + now apply processTag_registers.
  - apply IH; try assumption.
    intros E. apply processTag_keeps_existing. now apply Hdup.
Qed.

(** A batch in which every tag is a duplicate or cannot be built leaves the
    state as it is. *)
Lemma forEach_all_skipped verdict m ids names l st :
  (forall tagData,
      In tagData l ->
      Tags.Source.team tagData = None \/ Tags.Source.userId tagData = None \/
      Tags.has ids (Some (Mongo.toString (Tags.Source._id tagData)))
      || Tags.has names (Tags.Source.tag tagData) = true) ->
  Tags.forEach l (Tags.processTag verdict m ids names) st = (st, None).
Proof.
  induction l as [|x l IH]; intros H; [reflexivity|].
  rewrite forEach_processTag_cons.
  assert (Hx : Tags.processTag verdict m ids names x st = (st, None)).
  { destruct (H x (or_introl eq_refl)) as [Hx | [Hx | Hx]].
    - apply processTag_unbuildable. now left.
    - apply processTag_unbuildable. now right.
    - unfold Tags.processTag, Tags.tryCatch.
      destruct (Tags.Source.team x); [|reflexivity]. rewrite Hx. reflexivity. }
  rewrite Hx. simpl. apply IH. intros d Hd. apply H. now right.
Qed.

Lemma teamFilter_team tagData :
  Tags.teamFilter tagData = true -> Tags.Source.team tagData <> None.
Proof.
  unfold Tags.teamFilter. destruct (Tags.Source.team tagData); congruence.
Qed.

(** Two runs of the tag script leave the target the first run leaves, and
    the second run requests no creation. *)
Lemma updateTags_twice db t :
  let first := fst (Tags.updateTags Migration.reliableTags db t) in
  let second :=
    fst (Tags.updateTags Migration.reliableTags db (Tags.target first)) in
  Tags.target second = Tags.target first /\
  existsb Migration.isCreateTag (Tags.calls second) = false.
Proof.
  cbv zeta.
  set (t1 := Tags.target (fst (Tags.updateTags Migration.reliableTags db t))).
  assert (Hviewer : Tags.viewer t1 = Tags.viewer t).
  { subst t1.
    apply (updateTags_preserves
             (fun st => Tags.viewer (Tags.target st) = Tags.viewer t));
      try reflexivity.
    - intros tagData orgId mid refs d _ st H.
      destruct (createTag_cases Migration.reliableTags d st) as [E | E];
        rewrite E; exact H.
    - intros g ref st H.
      destruct (tagDocs_linkRef Migration.reliableTags g ref st) as [_ E].
      now rewrite E. }
  unfold Tags.updateTags. rewrite Hviewer.
  destruct (Tags.viewer t) as [who|] eqn:Ev.
  - destruct (Tags.groupRefs _) as [e|tagRefMap] eqn:Eg;
      [split; reflexivity|].
    rewrite forEach_all_skipped; [split; reflexivity|].
    intros tagData Hin. apply filter_In in Hin. destruct Hin as [Hin Hf].
    destruct (Tags.Source.userId tagData) as [uid|] eqn:Eu; [|auto].
    right; right. change (Tags.alreadyExists t1 tagData = true).
    subst t1. unfold Tags.updateTags. rewrite Ev, Eg.
    match goal with
    | |- Tags.alreadyExists
           (Tags.target (fst (match ?run with _ => _ end))) _ = _ =>
        assert (H : Tags.alreadyExists (Tags.target (fst run)) tagData = true);
          [|destruct run as [st' [e|]]; exact H]
    end.
    apply forEach_registers.
    + apply filter_In. now split.
    + now apply teamFilter_team.
    + congruence.
    + intros E. exact E.
  - split; reflexivity.
Qed.

(** ** Running the migration twice *)

Lemma existsb_reversed {A : Type} (f : A -> bool) (l : list A) :
  existsb f (rev l) = existsb f l.
Proof.
  induction l as [|x l IH]; simpl; [reflexivity|].
  rewrite existsb_app, IH. simpl. rewrite orb_false_r. apply orb_comm.
Qed.

(** C6, as stated, fails: [ann] has no [lastActive], so each run stamps
    [presence.lastSeen] with its own clock; the update issued by the second
    run (at clock 2) rewrites what the first run (at clock 1) stored. *)
Lemma second_run_restamps_lastSeen :
  let src := Migration.mkSource [Sample.ann]
               (Tags.Source.mkDatabase [Sample.hotLead] []) in
  let run := Migration.migrate Migration.reliableUsers Migration.reliableTags in
  let first := fst (run (fun _ => 1%Z) src (Migration.emptyTarget (Some 7))) in
  let second := fst (run (fun _ => 2%Z) src first) in
  second <> first /\
  map (fun d => Users.lastSeen (Users.presence (Users.fields d)))
      (Users.docs (Migration.userTable first)) = [1%Z] /\
  map (fun d => Users.lastSeen (Users.presence (Users.fields d)))
      (Users.docs (Migration.userTable second)) = [2%Z].
Proof.
  cbv zeta. split; [|split; reflexivity].
  intros H.
  apply (f_equal (fun t =>
           map (fun d => Users.lastSeen (Users.presence (Users.fields d)))
               (Users.docs (Migration.userTable t)))) in H.
  vm_compute in H. discriminate H.
Qed.

(** C6 (amended): on a target that performs every write and starts empty,
    running the migration a second time leaves the state that a single run
    made at the time of the second one leaves; the second run creates
    neither a user nor a tag (users are updated, tags skipped); and when every
    source user has a [lastActive] date the state is the one the first run
    left. *)
Theorem rerun_creates_nothing who src clock1 clock2 :
  let run := Migration.migrate Migration.reliableUsers Migration.reliableTags in
  let first := run clock1 src (Migration.emptyTarget who) in
  let second := run clock2 src (fst first) in
  fst second = fst (run clock2 src (Migration.emptyTarget who)) /\
  existsb Migration.isCreateUser (fst (snd second)) = false /\
  existsb Migration.isCreateTag (snd (snd second)) = false /\
  ((forall u, In u (Migration.users src) ->
              Users.Source.lastActive u <> None) ->
   fst second = fst first).
Proof.
  cbv zeta. unfold Migration.migrate. simpl.
  destruct (migrateUsers_twice clock1 clock2 (Migration.users src)
              Users.emptyTable emptyTable_wellFormed) as [Hu Hcu].
  destruct (updateTags_twice (Migration.tags src) (Tags.emptyTables who))
    as [Ht Hct].
  cbv zeta in Hu, Hcu, Ht, Hct.
  repeat split.
  - rewrite Hu, Ht. reflexivity.
  - rewrite existsb_reversed. exact Hcu.
  - rewrite existsb_reversed. exact Hct.
  - intros Hla. rewrite Hu, Ht. f_equal.
    assert (Hrun : forall c,
      Users.target (fst (Users.migrateUsers Migration.reliableUsers c
                           (Migration.users src) Users.emptyTable))
      = fold_right Users.store Users.emptyTable
                   (rev (Users.prepared c (Migration.users src)))).
    { intros c. unfold Users.migrateUsers.
      pose proof (processAll_stores (Migration.users src) c
                    (Users.mkState Users.emptyTable []
                                   (Users.mkCounters 0 0 0))
                    emptyTable_wellFormed) as Hp.
      cbn [Users.target] in Hp. rewrite <- Hp.
      destruct (Users.processAll _ _ _ _) as [st [e|]]; reflexivity. }
    rewrite !Hrun.
    now rewrite (prepared_lastActive (Migration.users src) clock2 clock1).
Qed.

Lemma rerun_creates_nothing_witness :
  let src := Migration.mkSource [Sample.annAgain]
               (Tags.Source.mkDatabase [Sample.hotLead; Sample.coldLead]
                                       [Sample.hotOnHouse]) in
  let run := Migration.migrate Migration.reliableUsers Migration.reliableTags in
  fst (run (fun _ => 2%Z) src
           (fst (run (fun _ => 1%Z) src (Migration.emptyTarget (Some 7)))))
  = fst (run (fun _ => 1%Z) src (Migration.emptyTarget (Some 7))).
Proof.
  cbv zeta.
  apply (proj2 (proj2 (proj2
           (rerun_creates_nothing (Some 7)
              (Migration.mkSource [Sample.annAgain]
                 (Tags.Source.mkDatabase [Sample.hotLead; Sample.coldLead]
                                         [Sample.hotOnHouse]))
              (fun _ => 1%Z) (fun _ => 2%Z))))).
  intros u [<- | []]. discriminate.
Defined.

(** * Further properties of the code *)

(** ** users.js: [mapStatus] *)

Lemma lowerAscii_idempotent (c : ascii) :
  lowerAscii (lowerAscii c) = lowerAscii c.
Proof. destruct c as [[] [] [] [] [] [] [] []]; reflexivity. Qed.

Lemma toLowerCase_idempotent (s : string) :
  toLowerCase (toLowerCase s) = toLowerCase s.
Proof.
  induction s as [|c s IH]; simpl; [reflexivity|].
  now rewrite lowerAscii_idempotent, IH.
Qed.

Lemma mapStatus_range (s : string) :
  In (Users.mapStatus s) ["approved"; "active"; "invited"; "pending"; "disabled"].
Proof.
  unfold Users.mapStatus. cbv zeta.
  repeat match goal with
         | |- context [if ?b then _ else _] => destruct b
         end; simpl; auto 6.
Qed.

(** X1: [mapStatus] ignores the ASCII case of its argument and is idempotent:
    a status already mapped is mapped to itself. *)
Theorem mapStatus_idempotent (s : string) :
  Users.mapStatus (toLowerCase s) = Users.mapStatus s /\
  Users.mapStatus (Users.mapStatus s) = Users.mapStatus s.
Proof.
  split.
  - unfold Users.mapStatus. now rewrite toLowerCase_idempotent.
  - pose proof (mapStatus_range s) as H. simpl in H.
    destruct H as [H | [H | [H | [H | [H | []]]]]]; rewrite <- H; reflexivity.
Qed.

(** ** users.js: what a run writes and counts *)

(** A property of the state kept by every iteration over a document of the
    batch holds when the loop is left. *)
Lemma processAll_invariant rejects (I : Users.state -> Prop) batch :
  (forall now oldUser st,
      In oldUser batch -> I st ->
      I (fst (Users.processUser rejects now oldUser st))) ->
  forall users clock st,
    incl users batch -> I st ->
    I (fst (Users.processAll rejects clock users st)).
Proof.
  intros Hstep. induction users as [|oldUser rest IH]; intros clock st Hin H.
  - exact H.
  - rewrite processAll_cons.
    assert (H1 := Hstep (clock 0%nat) oldUser st (Hin _ (or_introl eq_refl)) H).
    destruct (Users.processUser rejects (clock 0%nat) oldUser st)
      as [st' [e|]]; [exact H1|].
    apply IH; [|exact H1]. intros x Hx. apply Hin. now right.
Qed.

Lemma migrateUsers_state rejects clock users t :
  fst (Users.migrateUsers rejects clock users t)
  = fst (Users.processAll rejects clock users
           (Users.mkState t [] (Users.mkCounters 0 0 0))).
Proof.
  unfold Users.migrateUsers.
  destruct (Users.processAll _ _ _ _) as [st [e|]]; reflexivity.
Qed.

(** Every record written is the transform of a document of the batch that
    has at least one resolved organization. *)
Lemma written_from_batch rejects clock users t u :
  In u (Users.written
          (Users.calls (fst (Users.migrateUsers rejects clock users t)))) ->
  exists oldUser now newUser,
    In oldUser users /\
    Users.transformUser now oldUser = inr newUser /\
    Users.orgIds newUser <> [] /\
    u = Users.setDefaultActiveOrg newUser.
Proof.
  rewrite migrateUsers_state. revert u.
  apply (processAll_invariant rejects
           (fun st => forall u,
                In u (Users.written (Users.calls st)) ->
                exists oldUser now newUser,
                  In oldUser users /\
                  Users.transformUser now oldUser = inr newUser /\
                  Users.orgIds newUser <> [] /\
                  u = Users.setDefaultActiveOrg newUser) users).
  - intros now oldUser st Hin H u.
    destruct (processUser_step rejects now oldUser st)
      as [(e & _ & Hr) | [(nu & _ & _ & Hr) | (nu & Ht & Ho & Hr)]];
      cbv zeta in Hr; rewrite Hr; simpl; try apply H.
    intros Hu.
    assert (Hu' : u = Users.setDefaultActiveOrg nu \/
                  In u (Users.written (Users.calls st))).
    { destruct (Users.getUserByEmail _ _); simpl in Hu;
        destruct Hu as [Hu | Hu]; auto. }
    destruct Hu' as [-> | Hu']; [|now apply H].
    exists oldUser, now, nu. auto.
  - apply incl_refl.
  - intros u [].
Qed.

Lemma transformUser_identity now oldUser newUser :
  Users.transformUser now oldUser = inr newUser ->
  exists mail,
    Users.Source.email oldUser = Some mail /\
    Users.email newUser = toLowerCase mail /\
    Users.mongoId newUser = Mongo.toString (Users.Source._id oldUser).
Proof.
  unfold Users.transformUser.
  destruct (Users.Source.email oldUser) as [mail|]; [|discriminate].
  destruct (Users.Source.team oldUser) as [entries|]; [|discriminate].
  destruct (Users.mapTeam entries); [discriminate|].
  destruct (Users.lastSeenOf now _); [discriminate|].
  intros H. injection H as <-. exists mail. auto.
Qed.

Lemma setDefaultActiveOrg_mongoId (u : Users.newUser) :
  Users.mongoId (Users.setDefaultActiveOrg u) = Users.mongoId u.
Proof.
  unfold Users.setDefaultActiveOrg.
  destruct (Users.orgIds u); [reflexivity|].
  destruct (truthy (Users.activeOrgId u)); reflexivity.
Qed.

Lemma setDefaultActiveOrg_orgIds (u : Users.newUser) :
  Users.orgIds (Users.setDefaultActiveOrg u) = Users.orgIds u.
Proof.
  unfold Users.setDefaultActiveOrg.
  destruct (Users.orgIds u) eqn:E; [exact E|].
  destruct (truthy (Users.activeOrgId u)); [exact E | reflexivity].
Qed.

Lemma lowerAscii_ascii (c : ascii) :
  (nat_of_ascii c <? 128)%nat = true ->
  (nat_of_ascii (lowerAscii c) <? 128)%nat = true.
Proof.
  destruct c as [[] [] [] [] [] [] [] []];
    intros H; try reflexivity; discriminate H.
Qed.

Lemma toLowerCase_ascii (s : string) :
  isAscii s = true -> isAscii (toLowerCase s) = true.
Proof.
  induction s as [|c s IH]; simpl; [reflexivity|].
  intros H. apply andb_prop in H. destruct H as [Hc Hs].
  now rewrite (lowerAscii_ascii c Hc), IH.
Qed.

(** X2: when the emails of the batch are made of ASCII characters, every
    record a run writes (created or updated) carries the source identifier
    of a document of the batch and that document's email with its letters
    [A] to [Z] in lower case: the stored email is made of ASCII characters
    and lower-casing it again changes nothing. *)
Theorem written_email_lower_case rejects clock users t u :
  forallb Users.asciiEmail users = true ->
  In u (Users.written
          (Users.calls (fst (Users.migrateUsers rejects clock users t)))) ->
  isAscii (Users.email u) = true /\
  toLowerCase (Users.email u) = Users.email u /\
  exists oldUser mail,
    In oldUser users /\
    Users.Source.email oldUser = Some mail /\
    isAscii mail = true /\
    Users.email u = toLowerCase mail /\
    Users.mongoId u = Mongo.toString (Users.Source._id oldUser).
Proof.
  intros Hascii Hu.
  destruct (written_from_batch rejects clock users t u Hu)
    as (oldUser & now & nu & Hin & Ht & _ & ->).
  destruct (transformUser_identity now oldUser nu Ht) as (mail & Hm & He & Hi).
  assert (Ha : isAscii mail = true).
  { rewrite forallb_forall in Hascii. specialize (Hascii oldUser Hin).
    unfold Users.asciiEmail in Hascii. now rewrite Hm in Hascii. }
  rewrite setDefaultActiveOrg_email, setDefaultActiveOrg_mongoId, He.
  split; [now apply toLowerCase_ascii|].
  split; [apply toLowerCase_idempotent|].
  exists oldUser, mail. auto.
Qed.

Lemma written_email_lower_case_witness :
  toLowerCase (Users.email Sample.annRecord) = Users.email Sample.annRecord.
Proof.
  apply (written_email_lower_case Migration.reliableUsers (fun _ => 0%Z)
           [Sample.ann] Users.emptyTable Sample.annRecord).
  - reflexivity.
  - vm_compute. left. reflexivity.
Defined.

(** *** Organizations of the records written *)

Lemma registered_truthy v :
  registered Users.orgIdMap v -> truthy v = true.
Proof.
  intros (k & s & Hin & ->). simpl in Hin.
  destruct Hin as [Hin | [Hin | []]]; injection Hin as _ <-; reflexivity.
Qed.

Lemma mapTeam_members entries :
  forall ms,
    Users.mapTeam entries = inr ms ->
    Forall (fun m =>
              (registered Users.orgIdMap (Users.id m) \/ Users.id m = Null) /\
              Users.role m = "org:member" /\
              (Users.status m = "active" \/ Users.status m = "pending")) ms.
Proof.
  induction entries as [|t entries IH]; simpl; intros ms H.
  - injection H as <-. constructor.
  - destruct (Users.Source.teamId t) as [tid|]; [|discriminate].
    destruct (Users.Source.status t) as [st|]; [|discriminate].
    destruct (Users.mapTeam entries) as [e|ms']; [discriminate|].
    injection H as <-. constructor; [|now apply IH].
    simpl. split; [apply mapOrgId_of_ObjectId|]. split; [reflexivity|].
    destruct (String.eqb _ _); auto.
Qed.

Lemma transformUser_members now oldUser newUser :
  Users.transformUser now oldUser = inr newUser ->
  Forall (fun m =>
            registered Users.orgIdMap (Users.id m) /\
            Users.role m = "org:member" /\
            (Users.status m = "active" \/ Users.status m = "pending"))
         (Users.orgIds newUser) /\
  (registered Users.orgIdMap (Users.activeOrgId newUser) \/
   Users.activeOrgId newUser = Null).
Proof.
  unfold Users.transformUser.
  destruct (Users.Source.email oldUser) as [mail|]; [|discriminate].
  destruct (Users.Source.team oldUser) as [entries|]; [|discriminate].
  destruct (Users.mapTeam entries) as [e|ms] eqn:Em; [discriminate|].
  destruct (Users.lastSeenOf now _); [discriminate|].
  intros H. injection H as <-. simpl. split.
  - unfold Users.resolved. apply Forall_forall. intros m Hm.
    apply filter_In in Hm. destruct Hm as [Hm Hn].
    pose proof (mapTeam_members entries ms Em) as Hall.
    rewrite Forall_forall in Hall. destruct (Hall m Hm) as ([Hr | Hr] & H2).
    + auto.
    + rewrite Hr in Hn. discriminate Hn.
  - destruct (Users.Source.teamActive oldUser) as [o|]; simpl.
    + destruct (mapOrgId_of_ObjectId o) as [[Hr | Hr] _].
      * rewrite (registered_truthy _ Hr). now left.
      * rewrite Hr. now right.
    + now right.
Qed.

(** X3: every record a run writes has a non-empty membership list in which
    each entry names an organization registered in the table, with role
    [org:member] and status [active] or [pending], and its active
    organization is a registered one as well (never [null]). *)
Theorem written_memberships_registered rejects clock users t u :
  In u (Users.written
          (Users.calls (fst (Users.migrateUsers rejects clock users t)))) ->
  Users.orgIds u <> [] /\
  Forall (fun m =>
            registered Users.orgIdMap (Users.id m) /\
            Users.role m = "org:member" /\
            (Users.status m = "active" \/ Users.status m = "pending"))
         (Users.orgIds u) /\
  registered Users.orgIdMap (Users.activeOrgId u).
Proof.
  intros Hu.
  destruct (written_from_batch rejects clock users t u Hu)
    as (oldUser & now & nu & Hin & Ht & Ho & ->).
  destruct (transformUser_members now oldUser nu Ht) as [Hm Ha].
  rewrite setDefaultActiveOrg_orgIds. split; [exact Ho|]. split; [exact Hm|].
  unfold Users.setDefaultActiveOrg.
  destruct (Users.orgIds nu) as [|first rest] eqn:E; [congruence|].
  destruct Ha as [Ha | Ha].
  - rewrite (registered_truthy _ Ha). exact Ha.
  - rewrite Ha. simpl. inversion Hm; subst. tauto.
Qed.

Lemma written_memberships_registered_witness :
  registered Users.orgIdMap (Users.activeOrgId Sample.annRecord).
Proof.
  apply (written_memberships_registered Migration.reliableUsers
           (fun _ => 0%Z) [Sample.ann] Users.emptyTable Sample.annRecord).
  vm_compute. left. reflexivity.
Defined.

(** *** Counters *)

(** X4: when a run of the user script reaches its summary, every document of
    the collection was counted exactly once: the migrated, error and skipped
    counts add up to the number of documents, and the summary reports
    them. *)
Theorem completed_run_counts_every_user rejects clock users t report :
  snd (Users.migrateUsers rejects clock users t) = Users.Completed report ->
  let c := Users.vars (fst (Users.migrateUsers rejects clock users t)) in
  Users.migratedCount c + Users.errorCount c + Users.skippedCount c
  = List.length users /\
  report = Users.summary c.
Proof.
  unfold Users.migrateUsers.
  destruct (Users.processAll rejects clock users _) as [st [e|]] eqn:Hrun;
    simpl; [discriminate|].
  intros H. injection H as <-. split; [|reflexivity].
  apply processAll_counts in Hrun. simpl in Hrun. lia.
Qed.

Lemma completed_run_counts_every_user_witness :
  Users.migratedCount
    (Users.vars (fst (Users.migrateUsers Sample.refusing (fun _ => 0%Z)
                        [Sample.ann; Sample.stranger; Sample.annAgain]
                        Users.emptyTable)))
  + Users.errorCount
      (Users.vars (fst (Users.migrateUsers Sample.refusing (fun _ => 0%Z)
                          [Sample.ann; Sample.stranger; Sample.annAgain]
                          Users.emptyTable)))
  + Users.skippedCount
      (Users.vars (fst (Users.migrateUsers Sample.refusing (fun _ => 0%Z)
                          [Sample.ann; Sample.stranger; Sample.annAgain]
                          Users.emptyTable)))
  = 3.
Proof.
  exact (proj1 (completed_run_counts_every_user Sample.refusing
                  (fun _ => 0%Z)
                  [Sample.ann; Sample.stranger; Sample.annAgain]
                  Users.emptyTable _ eq_refl)).
Defined.

(** X5: whatever the target rejects and however the run ends, the number of
    users in the target grows by exactly the migrated count: no user is ever
    removed, and an update or a rejected write adds none. *)
Theorem migrated_count_is_users_added rejects clock users t :
  let final := fst (Users.migrateUsers rejects clock users t) in
  List.length (Users.docs (Users.target final))
  = List.length (Users.docs t) + Users.migratedCount (Users.vars final).
Proof.
  cbv zeta. rewrite migrateUsers_state.
  apply (processAll_invariant rejects
           (fun st => List.length (Users.docs (Users.target st))
                      = List.length (Users.docs t)
                        + Users.migratedCount (Users.vars st)) users).
  - intros now oldUser st _ H.
    destruct (processUser_step rejects now oldUser st)
      as [(e & _ & Hr) | [(nu & _ & _ & Hr) | (nu & _ & _ & Hr)]];
      cbv zeta in Hr; rewrite Hr; simpl; try exact H.
    destruct (Users.getUserByEmail _ _) as [existing|];
      destruct (rejects _ _); simpl; try exact H.
    + now rewrite length_map.
    + rewrite length_app. simpl. lia.
  - apply incl_refl.
  - simpl. lia.
Qed.

(** *** How a run ends *)



(** *** One user per email *)

Lemma known_In mail ds :
  Users.known mail ds = true <->
  In mail (map (fun d => Users.email (Users.fields d)) ds).
Proof.
  unfold Users.known. rewrite existsb_exists, in_map_iff. split.
  - intros (d & Hd & He). apply String.eqb_eq in He. now exists d.
  - intros (d & He & Hd). exists d. split; [exact Hd|].
    now apply String.eqb_eq.
Qed.

Lemma emails_put u ds next :
  map (fun d => Users.email (Users.fields d)) (Users.put u ds next)
  = if Users.known (Users.email u) ds
    then map (fun d => Users.email (Users.fields d)) ds
    else map (fun d => Users.email (Users.fields d)) ds ++ [Users.email u].
Proof.
  unfold Users.known. induction ds as [|d ds IH]; simpl; [reflexivity|].
  destruct (String.eqb (Users.email (Users.fields d)) (Users.email u)) eqn:E;
    simpl.
  - apply String.eqb_eq in E. now rewrite E.
  - rewrite IH. now destruct (existsb _ ds).
Qed.

Lemma store_emails_unique u t :
  NoDup (Users.emails t) -> NoDup (Users.emails (Users.store u t)).
Proof.
  unfold Users.emails, Users.store. simpl. intros H. rewrite emails_put.
  destruct (Users.known (Users.email u) (Users.docs t)) eqn:Hk; [exact H|].
  apply NoDup_app; [exact H | repeat constructor; intros [] |].
  intros x Hx [<- | []]. apply known_In in Hx. congruence.
Qed.

(** What an iteration does to the target: nothing, or the write of a record
    looked up by its email. *)
Lemma processUser_target rejects now oldUser st :
  Users.target (fst (Users.processUser rejects now oldUser st))
  = Users.target st \/
  exists u,
    Users.target (fst (Users.processUser rejects now oldUser st))
    = Users.upsert u (Users.target st).
Proof.
  destruct (processUser_step rejects now oldUser st)
    as [(e & _ & Hr) | [(nu & _ & _ & Hr) | (nu & _ & _ & Hr)]];
    cbv zeta in Hr; rewrite Hr; simpl; auto.
  destruct (rejects _ _); auto.
  right. exists (Users.setDefaultActiveOrg nu). unfold Users.upsert.
  destruct (Users.getUserByEmail _ _); reflexivity.
Qed.

(** X7: the user script never stores two users under one email: if the
    target's users have distinct identifiers and distinct emails before a
    run, they still have after it, whatever the target rejects and however
    the run ends. *)
Theorem emails_stay_unique rejects clock users t :
  Users.wellFormed t ->
  NoDup (Users.emails t) ->
  let final := Users.target (fst (Users.migrateUsers rejects clock users t)) in
  Users.wellFormed final /\ NoDup (Users.emails final).
Proof.
  intros Hwf Hnd. cbv zeta. rewrite migrateUsers_state.
  apply (processAll_invariant rejects
           (fun st => Users.wellFormed (Users.target st) /\
                      NoDup (Users.emails (Users.target st))) users).
  - intros now oldUser st _ [H1 H2].
    destruct (processUser_target rejects now oldUser st) as [E | [u E]];
      rewrite E; [now split|].
    rewrite upsert_store by exact H1. split.
    + now apply store_wellFormed.
    + now apply store_emails_unique.
  - apply incl_refl.
  - now split.
Qed.

Lemma emails_stay_unique_witness :
  NoDup (Users.emails
           (Users.target
              (fst (Users.migrateUsers Migration.reliableUsers (fun _ => 0%Z)
                      [Sample.ann; Sample.annAgain] Sample.oneUser)))).
Proof.
  apply (emails_stay_unique Migration.reliableUsers (fun _ => 0%Z)
           [Sample.ann; Sample.annAgain] Sample.oneUser).
  - split; simpl; repeat constructor; auto.
  - simpl. repeat constructor. auto.
Defined.

(** *** What a second run reports *)

Lemma processAll_written_count users :
  forall clock st,
    Users.wellFormed (Users.target st) ->
    let final := fst (Users.processAll Migration.reliableUsers clock users st) in
    Users.migratedCount (Users.vars final) + Users.errorCount (Users.vars final)
    = Users.migratedCount (Users.vars st) + Users.errorCount (Users.vars st)
      + List.length (Users.prepared clock users).
Proof.
  induction users as [|oldUser rest IH]; intros clock st Hwf; cbv zeta.
  - simpl. lia.
  - rewrite processAll_cons. simpl Users.prepared.
    destruct (Users.transformUser (clock 0%nat) oldUser) as [e|newUser] eqn:Ht.
    + unfold Users.processUser. rewrite Ht. simpl. lia.
    + destruct (List.length (Users.orgIds newUser) =? 0)%nat eqn:Ho.
      * rewrite (processUser_skipped _ _ _ _ st Ht Ho).
        rewrite IH by exact Hwf. simpl. lia.
      * assert (Hne : Users.orgIds newUser <> []).
        { intros E. rewrite E in Ho. discriminate Ho. }
        destruct (processUser_reliable _ _ _ st Ht Ho)
          as (st' & Hrun & Htarget & _).
        pose proof (processUser_ready Migration.reliableUsers _ _ _ st Ht Hne)
          as Hready.
        cbv zeta in Hready. rewrite Hrun in Hready. injection Hready as Hst'.
        rewrite Hrun.
        assert (Hwf' : Users.wellFormed (Users.target st')).
        { rewrite Htarget, upsert_store by exact Hwf.
          now apply store_wellFormed. }
        rewrite IH by exact Hwf'. rewrite Hst'. simpl.
        destruct (Users.getUserByEmail _ _); simpl; lia.
Qed.

Lemma processAll_migrates_nothing users :
  forall clock st,
    (forall y, In y (Users.prepared clock users) ->
               Users.known (Users.email y) (Users.docs (Users.target st))
               = true) ->
    Users.wellFormed (Users.target st) ->
    Users.migratedCount
      (Users.vars (fst (Users.processAll Migration.reliableUsers clock users
                                         st)))
    = Users.migratedCount (Users.vars st).
Proof.
  induction users as [|oldUser rest IH]; intros clock st Hk Hwf.
  - reflexivity.
  - rewrite processAll_cons. simpl Users.prepared in Hk.
    destruct (Users.transformUser (clock 0%nat) oldUser) as [e|newUser] eqn:Ht.
    + unfold Users.processUser. rewrite Ht. reflexivity.
    + destruct (List.length (Users.orgIds newUser) =? 0)%nat eqn:Ho.
      * rewrite (processUser_skipped _ _ _ _ st Ht Ho).
        rewrite IH; [reflexivity | exact Hk | exact Hwf].
      * assert (Hne : Users.orgIds newUser <> []).
        { intros E. rewrite E in Ho. discriminate Ho. }
        destruct (processUser_reliable _ _ _ st Ht Ho)
          as (st' & Hrun & Htarget & _).
        pose proof (processUser_ready Migration.reliableUsers _ _ _ st Ht Hne)
          as Hready.
        cbv zeta in Hready. rewrite Hrun in Hready. injection Hready as Hst'.
        rewrite Hrun. rewrite upsert_store in Htarget by exact Hwf.
        rewrite IH.
        -- rewrite Hst'. simpl.
           assert (Hknown : Users.known
                              (Users.email (Users.setDefaultActiveOrg newUser))
                              (Users.docs (Users.target st)) = true).
           { apply Hk. now left. }
           apply getUserByEmail_known in Hknown. destruct Hknown as [d Hd].
           rewrite Hd. reflexivity.
        -- intros y Hy. rewrite Htarget, known_store, Hk; [reflexivity|].
           now right.
        -- rewrite Htarget. now apply store_wellFormed.
Qed.

(** X8: on a target that performs every write and starts empty, a second run
    of the user script reports no user as migrated and reports as errors as
    many users as the first run wrote (migrated or counted as errors): every
    user it updates successfully shows up in the error count. *)
Theorem second_run_reports_updates_as_errors clock1 clock2 users :
  let first :=
    fst (Users.migrateUsers Migration.reliableUsers clock1 users
                            Users.emptyTable) in
  let second :=
    fst (Users.migrateUsers Migration.reliableUsers clock2 users
                            (Users.target first)) in
  Users.migratedCount (Users.vars second) = 0 /\
  Users.errorCount (Users.vars second)
  = Users.migratedCount (Users.vars first) + Users.errorCount (Users.vars first).
Proof.
  cbv zeta. rewrite !migrateUsers_state.
  set (st0 := Users.mkState Users.emptyTable [] (Users.mkCounters 0 0 0)).
  assert (Hfirst :
    Users.target (fst (Users.processAll Migration.reliableUsers clock1 users
                                        st0))
    = fold_right Users.store Users.emptyTable
                 (rev (Users.prepared clock1 users))).
  { apply (processAll_stores users clock1 st0 emptyTable_wellFormed). }
  set (st1 := Users.mkState
                (Users.target
                   (fst (Users.processAll Migration.reliableUsers clock1
                                          users st0)))
                [] (Users.mkCounters 0 0 0)).
  assert (Hwf1 : Users.wellFormed (Users.target st1)).
  { subst st1. simpl. rewrite Hfirst.
    apply stored_wellFormed, emptyTable_wellFormed. }
  assert (Hm : Users.migratedCount
                 (Users.vars (fst (Users.processAll Migration.reliableUsers
                                     clock2 users st1))) = 0).
  { rewrite processAll_migrates_nothing; [reflexivity | | exact Hwf1].
    intros y Hy. subst st1. simpl Users.target. rewrite Hfirst.
    assert (Hin : In (Users.email y)
                     (map Users.email (rev (Users.prepared clock1 users)))).
    { rewrite map_rev, (prepared_emails users clock1 clock2).
      apply in_rev. rewrite rev_involutive. now apply in_map. }
    apply in_map_iff in Hin. destruct Hin as (y' & Heq & Hy').
    rewrite <- Heq. now apply stored_known. }
  split; [exact Hm|].
  pose proof (processAll_written_count users clock2 st1 Hwf1) as H2.
  pose proof (processAll_written_count users clock1 st0 emptyTable_wellFormed)
    as H1.
  cbv zeta in H1, H2. simpl in H1, H2.
  assert (Hlen : List.length (Users.prepared clock1 users)
                 = List.length (Users.prepared clock2 users)).
  { rewrite <- (length_map Users.email), <- (length_map Users.email
                                               (Users.prepared clock2 users)).
    f_equal. apply prepared_emails. }
  lia.
Qed.

(** ** tags.js: [mapUserId] *)

Lemma userIdMap_values k v :
  In (k, v) Tags.userIdMap -> String.eqb v "" = false.
Proof.
  intros H. simpl in H.
  repeat (destruct H as [H | H]; [injection H as _ <-; reflexivity|]).
  contradiction.
Qed.

Lemma mapUserId_of_ObjectId (o : Mongo.ObjectId) :
  exists s,
    Tags.mapUserId (Some (Mongo.toString o)) = Str s /\
    s <> "" /\
    (s = Tags.unknownUser \/ exists k, In (k, s) Tags.userIdMap).
Proof.
  destruct (toString_plain o) as [Hf Hi].
  unfold Tags.mapUserId. rewrite Hf. unfold get. rewrite Hi.
  destruct (own Tags.userIdMap (Mongo.toString o)) as [v|] eqn:Eo.
  - apply own_In in Eo. pose proof (userIdMap_values _ _ Eo) as Hv.
    simpl. rewrite Hv. simpl. exists v. split; [reflexivity|]. split.
    + intros ->. discriminate Hv.
    + right. exists (Mongo.toString o). exact Eo.
  - simpl. exists Tags.unknownUser. split; [reflexivity|].
    split; [discriminate | now left].
Qed.

(** X9: the user look-up is permissive: on the string of any [ObjectId] it
    answers with a non-empty identifier, either one of the table or the
    fixed unknown-user identifier; it never answers [null]. *)
Theorem mapUserId_never_null (o : Mongo.ObjectId) :
  exists s,
    Tags.mapUserId (Some (Mongo.toString o)) = Str s /\
    s <> "" /\
    (s = Tags.unknownUser \/ exists k, In (k, s) Tags.userIdMap).
Proof. exact (mapUserId_of_ObjectId o). Qed.

Lemma userIdMap_long_key k :
  In (k, "jx743dfq80jftth0bfdb1e6gq172cnnw") Tags.userIdMap ->
  k = "632245667e8b30f963244398f".
Proof.
  intros H. simpl in H.
  repeat (destruct H as [H | H];
          [first [congruence | inversion H; reflexivity]|]).
  contradiction.
Qed.

(** X10: the table entry keyed [632245667e8b30f963244398f] can never be hit:
    its key has 25 characters, an [ObjectId] string has 24, so no source user
    is ever mapped to [jx743dfq80jftth0bfdb1e6gq172cnnw]. *)
Theorem mapUserId_unreachable_entry (o : Mongo.ObjectId) :
  In ("632245667e8b30f963244398f", "jx743dfq80jftth0bfdb1e6gq172cnnw")
     Tags.userIdMap /\
  Tags.mapUserId (Some (Mongo.toString o))
  <> Str "jx743dfq80jftth0bfdb1e6gq172cnnw".
Proof.
  split; [simpl; tauto|].
  destruct (toString_plain o) as [Hf Hi].
  unfold Tags.mapUserId. rewrite Hf. unfold get. rewrite Hi.
  destruct (own Tags.userIdMap (Mongo.toString o)) as [v|] eqn:Eo.
  - apply own_In in Eo. pose proof (userIdMap_values _ _ Eo) as Hv.
    simpl. rewrite Hv. simpl. intros H. injection H as ->.
    apply userIdMap_long_key in Eo.
    destruct o as [s Hs]. unfold Mongo.toString in Eo. simpl in Eo.
    subst s. discriminate Hs.
  - simpl. discriminate.
Qed.

(** ** tags.js: the grouping of references *)

Lemma refsOf_push acc k r k' :
  Tags.refsOf (Tags.push acc k r) k'
  = if String.eqb k k' then Tags.refsOf acc k' ++ [r]
    else Tags.refsOf acc k'.
Proof.
  induction acc as [|[k0 rs] acc IH]; simpl.
  - destruct (String.eqb k k'); reflexivity.
  - destruct (String.eqb k0 k) eqn:E0; simpl.
    + apply String.eqb_eq in E0. subst k0.
      destruct (String.eqb k k'); reflexivity.
    + destruct (String.eqb k0 k') eqn:E1; [|exact IH].
      apply String.eqb_eq in E1. subst k0.
      rewrite String.eqb_sym in E0. now rewrite E0.
Qed.

Lemma refersTo_tagged o k r :
  Tags.Source.tagObject r = Some o ->
  Tags.refersTo k r = String.eqb (Mongo.toString o) k.
Proof. intros H. unfold Tags.refersTo. now rewrite H. Qed.

(** The reduce succeeds exactly when every reference names its tag, and then
    it adds to each entry of the accumulator the references of that tag, in
    order. *)
Lemma refsOf_grouped refs :
  forall acc,
    match Tags.groupInto acc refs with
    | inr tagRefMap =>
        forallb Tags.hasTagObject refs = true /\
        forall k, Tags.refsOf tagRefMap k
                  = Tags.refsOf acc k ++ filter (Tags.refersTo k) refs
    | inl e =>
        e = TypeError "tagRef.tagObject" /\
        forallb Tags.hasTagObject refs = false
    end.
Proof.
  induction refs as [|r refs IH]; intros acc; simpl.
  - split; [reflexivity|]. intros k. now rewrite app_nil_r.
  - assert (Hr : Tags.hasTagObject r
                 = match Tags.Source.tagObject r with
                   | Some _ => true
                   | None => false
                   end) by reflexivity.
    destruct (Tags.Source.tagObject r) as [o|] eqn:Eo; rewrite Hr;
      [|now split].
    specialize (IH (Tags.push acc (Mongo.toString o) r)).
    destruct (Tags.groupInto _ refs) as [e|tagRefMap]; [exact IH|].
    destruct IH as [Hall Hk]. split; [exact Hall|].
    intros k. rewrite Hk, refsOf_push, (refersTo_tagged o k r Eo).
    destruct (String.eqb (Mongo.toString o) k);
      [now rewrite <- app_assoc | reflexivity].
Qed.

Lemma groupRefs_complete refs :
  forallb Tags.hasTagObject refs = true <->
  exists tagRefMap, Tags.groupRefs refs = inr tagRefMap.
Proof.
  unfold Tags.groupRefs. pose proof (refsOf_grouped refs []) as H.
  destruct (Tags.groupInto [] refs) as [e|tagRefMap].
  - destruct H as [_ H]. rewrite H.
    split; [discriminate | intros [m Hm]; discriminate Hm].
  - destruct H as [H _]. rewrite H. split; [eauto | reflexivity].
Qed.

Lemma groupRefs_refsOf refs tagRefMap k :
  Tags.groupRefs refs = inr tagRefMap ->
  Tags.refsOf tagRefMap k = filter (Tags.refersTo k) refs.
Proof.
  unfold Tags.groupRefs. intros Hg.
  pose proof (refsOf_grouped refs []) as H. rewrite Hg in H.
  destruct H as [_ H]. now rewrite H.
Qed.

(** X11: the grouping of the references by tag throws (a [TypeError], outside
    the [try] of the loop) exactly when some reference has no [tagObject];
    otherwise it loses nothing and keeps the order: what [tagRefMap] holds
    for an identifier is exactly the references of the collection whose
    [tagObject] is that identifier, in collection order (none when there is
    no such reference). *)
Theorem groupRefs_lookup refs :
  match Tags.groupRefs refs with
  | inr tagRefMap =>
      forallb Tags.hasTagObject refs = true /\
      forall k, Tags.refsOf tagRefMap k = filter (Tags.refersTo k) refs
  | inl e =>
      e = TypeError "tagRef.tagObject" /\
      forallb Tags.hasTagObject refs = false
  end.
Proof. exact (refsOf_grouped refs []). Qed.

(** X12: in a run the classification of the loop body never finds contacts:
    the references are fetched with [refFilter], so the references grouped
    under any identifier are all of type [property], and the local
    [recordType] is [properties] when there is one and unassigned
    otherwise. *)
Theorem usage_never_contacts db tagRefMap k :
  Tags.groupRefs (filter Tags.refFilter (Tags.Source.tagrefs db))
  = inr tagRefMap ->
  let references := Tags.refsOf tagRefMap k in
  Forall (fun r => Tags.Source.type r = "property") references /\
  Tags.hasKind "contact" references = false /\
  Tags.usage references
  = match references with
    | [] => None
    | _ :: _ => Some "properties"
    end.
Proof.
  intros Hg. cbv zeta. rewrite (groupRefs_refsOf _ _ k Hg).
  set (refs := filter _ (filter Tags.refFilter (Tags.Source.tagrefs db))).
  assert (H : Forall (fun r => Tags.Source.type r = "property") refs).
  { apply Forall_forall. intros r Hr. subst refs.
    apply filter_In in Hr. destruct Hr as [Hr _].
    apply filter_In in Hr. destruct Hr as [_ Hr].
    unfold Tags.refFilter in Hr. simpl in Hr. rewrite orb_false_r in Hr.
    now apply String.eqb_eq. }
  split; [exact H|].
  assert (Hc : Tags.hasKind "contact" refs = false).
  { unfold Tags.hasKind. induction H as [|r rs Hr _ IH]; simpl;
      [reflexivity|]. rewrite Hr, IH. reflexivity. }
  split; [exact Hc|].
  unfold Tags.usage. unfold Tags.hasKind in Hc. rewrite Hc. simpl.
  destruct H as [|r rs Hr _]; simpl; [reflexivity|].
  rewrite Hr. reflexivity.
Qed.

Lemma usage_never_contacts_witness :
  Tags.usage
    (Tags.refsOf [(Mongo.toString Sample.id1, [Sample.hotOnHouse])]
                 (Mongo.toString Sample.id1))
  = Some "properties".
Proof.
  exact (proj2 (proj2
           (usage_never_contacts
              (Tags.Source.mkDatabase [Sample.hotLead]
                 [Sample.hotOnContact; Sample.hotOnHouse])
              [(Mongo.toString Sample.id1, [Sample.hotOnHouse])]
              (Mongo.toString Sample.id1) eq_refl))).
Defined.

(** ** tags.js: what a run requests *)

Lemma requestedRecordTypes_map cs :
  Tags.requestedRecordTypes cs = map Tags.recordType (Tags.requestedTags cs).
Proof.
  induction cs as [|c cs IH]; simpl; [reflexivity|].
  rewrite map_app, IH. destruct c as [| | | |[d|r g]]; reflexivity.
Qed.

Lemma requestedTags_app a b :
  Tags.requestedTags (a ++ b) = Tags.requestedTags a ++ Tags.requestedTags b.
Proof. apply flat_map_app. Qed.

Lemma requestedTags_rev cs :
  Tags.requestedTags (rev cs) = rev (Tags.requestedTags cs).
Proof.
  induction cs as [|c cs IH]; simpl; [reflexivity|].
  rewrite requestedTags_app, IH, rev_app_distr. simpl.
  rewrite app_nil_r. destruct c as [| | | |[d|r g]]; reflexivity.
Qed.

(** Linking adds no creation to the calls. *)
Lemma linkCreated_requests verdict m st :
  Tags.requestedTags (Tags.calls (fst (Tags.linkCreated verdict m st)))
  = Tags.requestedTags (Tags.calls st).
Proof.
  assert (H : exists later,
             Tags.calls (fst (Tags.linkCreated verdict m st))
             = later ++ Tags.calls st /\
             Tags.requestedRecordTypes later = []).
  { apply (preserves_linkCreated
             (fun st' => exists later,
                  Tags.calls st' = later ++ Tags.calls st /\
                  Tags.requestedRecordTypes later = [])).
    - intros g ref. apply linkRef_adds_no_creation.
    - exists []. split; reflexivity. }
  destruct H as (later & Hl & Hn). rewrite Hl, requestedTags_app.
  rewrite requestedRecordTypes_map in Hn. apply map_eq_nil in Hn.
  now rewrite Hn.
Qed.

(** The creation an iteration requests. *)
Lemma processTag_requests verdict m ids names tagData st :
  Tags.requestedTags
    (Tags.calls (fst (Tags.processTag verdict m ids names tagData st)))
  = (if Tags.has ids (Some (Mongo.toString (Tags.Source._id tagData)))
        || Tags.has names (Tags.Source.tag tagData)
     then []
     else match Tags.built m tagData with
          | Some d => [d]
          | None => []
          end)
    ++ Tags.requestedTags (Tags.calls st).
Proof.
  unfold Tags.processTag, Tags.built.
  destruct (Tags.Source.team tagData) as [tm|].
  - unfold Tags.tryCatch at 1.
    destruct (Tags.has ids _ || Tags.has names _); [reflexivity|].
    destruct (Tags.buildTag _ _ _ tagData) as [e|d]; [reflexivity|].
    assert (H : Tags.requestedTags
                  (Tags.calls
                     (fst (Tags.andThen
                             (Tags.tryCatch (Tags.createTag verdict d)
                                            (fun _ => Tags.skip))
                             (Tags.linkCreated verdict m) st)))
                = [d] ++ Tags.requestedTags (Tags.calls st)).
    { unfold Tags.andThen.
      pose proof (tryCatch_skip_total (Tags.createTag verdict d) st) as Hn.
      assert (Hcalls :
        Tags.calls (fst (Tags.tryCatch (Tags.createTag verdict d)
                                       (fun _ => Tags.skip) st))
        = Tags.Mutation (Tags.CreateTagFromMongo d) :: Tags.calls st).
      { unfold Tags.tryCatch. pose proof (calls_createTag verdict d st) as Hc.
        destruct (Tags.createTag verdict d st) as [st' [e|]]; exact Hc. }
      destruct (Tags.tryCatch (Tags.createTag verdict d)
                              (fun _ => Tags.skip) st) as [st' r].
      simpl in Hn, Hcalls. subst r.
      rewrite linkCreated_requests, Hcalls. reflexivity. }
    destruct (Tags.andThen _ _ st) as [st' [e|]]; exact H.
  - unfold Tags.tryCatch. simpl. now destruct (_ || _).
Qed.

Lemma forEach_requests verdict m ids names l :
  forall st,
    Tags.requestedTags
      (Tags.calls
         (fst (Tags.forEach l (Tags.processTag verdict m ids names) st)))
    = rev (flat_map
             (fun tagData =>
                if Tags.has ids
                     (Some (Mongo.toString (Tags.Source._id tagData)))
                   || Tags.has names (Tags.Source.tag tagData)
                then []
                else match Tags.built m tagData with
                     | Some d => [d]
                     | None => []
                     end) l)
      ++ Tags.requestedTags (Tags.calls st).
Proof.
  induction l as [|x l IH]; intros st; [reflexivity|].
  rewrite forEach_processTag_cons, IH, processTag_requests. simpl flat_map.
  rewrite rev_app_distr, <- app_assoc. f_equal. f_equal.
  destruct (_ || _); [reflexivity|].
  destruct (Tags.built m x); reflexivity.
Qed.

(** The state an authenticated run ends in is the one its loop ends in, when
    the grouping of the references went through. *)
Lemma updateTags_state verdict db t who tagRefMap :
  Tags.viewer t = Some who ->
  Tags.groupRefs (filter Tags.refFilter (Tags.Source.tagrefs db))
  = inr tagRefMap ->
  fst (Tags.updateTags verdict db t)
  = fst (Tags.forEach
           (filter Tags.teamFilter (Tags.Source.tagdatas db))
           (Tags.processTag verdict tagRefMap
              (map Tags.idField (Tags.tagDocs t))
              (map (fun d => Tags.name (Tags.stored d)) (Tags.tagDocs t)))
           (Tags.mkState t [Tags.GetAll; Tags.Viewer] [])).
Proof.
  intros Hv Hg. unfold Tags.updateTags. rewrite Hv, Hg.
  match goal with
  | |- fst (match ?run with _ => _ end) = _ =>
      destruct run as [st' [e|]] eqn:E
  end; unfold Tags.record in E; simpl in E; rewrite E; reflexivity.
Qed.

(** The creations a run requests, oldest first. *)
Lemma updateTags_requests verdict db t who :
  Tags.viewer t = Some who ->
  Tags.requestedTags
    (rev (Tags.calls (fst (Tags.updateTags verdict db t))))
  = match Tags.groupRefs (filter Tags.refFilter (Tags.Source.tagrefs db)) with
    | inr tagRefMap =>
        flat_map (Tags.creationFor t tagRefMap)
                 (filter Tags.teamFilter (Tags.Source.tagdatas db))
    | inl _ => []
    end.
Proof.
  intros Hv.
  destruct (Tags.groupRefs _) as [e|tagRefMap] eqn:Hg.
  - unfold Tags.updateTags. rewrite Hv, Hg. reflexivity.
  - rewrite requestedTags_rev, (updateTags_state _ _ _ _ _ Hv Hg).
    rewrite forEach_requests. simpl. rewrite app_nil_r, rev_involutive.
    reflexivity.
Qed.

(** X13: the creations an authenticated run requests are, in order, the
    records built for the documents of the two teams that can be built (they
    have a [userId]) and that match no tag the target held when the run
    began, by [id] or by name. The check is made against that initial list
    only: two documents of the batch with the same new name are both
    requested. The answers of the target play no part. A run that the
    grouping of the references ends requests none. *)
Theorem creations_decided_on_initial_tags verdict db t who :
  Tags.viewer t = Some who ->
  Tags.requestedTags
    (rev (Tags.calls (fst (Tags.updateTags verdict db t))))
  = match Tags.groupRefs (filter Tags.refFilter (Tags.Source.tagrefs db)) with
    | inr tagRefMap =>
        flat_map (Tags.creationFor t tagRefMap)
                 (filter Tags.teamFilter (Tags.Source.tagdatas db))
    | inl _ => []
    end.
Proof. apply updateTags_requests. Qed.

Lemma creations_decided_on_initial_tags_witness :
  map Tags.name
      (Tags.requestedTags
         (rev (Tags.calls
                 (fst (Tags.updateTags Migration.reliableTags
                         Fixtures.twoHotLeads Sample.oneHouse)))))
  = [Some "Hot Lead"; Some "Hot Lead"].
Proof.
  rewrite (creations_decided_on_initial_tags Migration.reliableTags
             Fixtures.twoHotLeads Sample.oneHouse 7 eq_refl).
  reflexivity.
Defined.

Lemma requestedTags_In d cs :
  In d (Tags.requestedTags cs) <->
  In (Tags.Mutation (Tags.CreateTagFromMongo d)) cs.
Proof.
  unfold Tags.requestedTags. rewrite in_flat_map. split.
  - intros (c & Hc & Hd).
    destruct c as [| | | |[d'|r g]]; simpl in Hd; try contradiction.
    destruct Hd as [<- | []]. exact Hc.
  - intros H. eexists. split; [exact H|]. now left.
Qed.

Lemma teamFilter_registered tagData tm :
  Tags.teamFilter tagData = true ->
  Tags.Source.team tagData = Some tm ->
  registered Tags.orgIdMap (Tags.mapOrgId (Some (Mongo.toString tm))).
Proof.
  unfold Tags.teamFilter. intros Hf Ht. rewrite Ht in Hf. simpl in Hf.
  rewrite orb_false_r in Hf. apply orb_prop in Hf.
  destruct Hf as [Hf | Hf]; apply String.eqb_eq in Hf; rewrite Hf.
  - exists "628bff8d44cd3e01b746b737", "nd73x7djt7ez0zmyp49n6t0x3h6ztghc".
    split; [simpl; auto | reflexivity].
  - exists "628ea3ebfeec685660394d1c", "nd7dzk39r6hzmz012cvmgwgqvn70gdm0".
    split; [simpl; auto | reflexivity].
Qed.

(** X14: every creation a run requests is for a document of one of the two
    teams that the target did not hold when the run began; the record
    carries that document's identifier and name, an organization registered
    in the table (never the fallback organization, never [null]) and exactly
    one user, with role [tag:admin] and a non-null identifier. *)
Theorem requested_tag_well_formed verdict db t d :
  In (Tags.Mutation (Tags.CreateTagFromMongo d))
     (Tags.calls (fst (Tags.updateTags verdict db t))) ->
  exists tagData,
    In tagData (Tags.Source.tagdatas db) /\
    Tags.teamFilter tagData = true /\
    Tags.alreadyExists t tagData = false /\
    Tags.mongoId d = Mongo.toString (Tags.Source._id tagData) /\
    Tags.name d = Tags.Source.tag tagData /\
    registered Tags.orgIdMap (Tags.orgId d) /\
    exists s, Tags.userIds d = [Tags.mkUserRole (Str s) "tag:admin"] /\
              s <> "".
Proof.
  intros Hin. destruct (Tags.viewer t) as [who|] eqn:Hv.
  - apply in_rev, requestedTags_In in Hin.
    rewrite (updateTags_requests verdict db t who Hv) in Hin.
    destruct (Tags.groupRefs _) as [e|tagRefMap]; [contradiction|].
    apply in_flat_map in Hin. destruct Hin as (tagData & Hf & Hd).
    apply filter_In in Hf. destruct Hf as [Hf Hteam].
    exists tagData. split; [exact Hf|]. split; [exact Hteam|].
    unfold Tags.creationFor in Hd.
    destruct (Tags.alreadyExists t tagData); [contradiction|].
    split; [reflexivity|].
    unfold Tags.built in Hd.
    destruct (Tags.Source.team tagData) as [tm|] eqn:Et; [|contradiction].
    unfold Tags.buildTag in Hd.
    destruct (Tags.Source.userId tagData) as [uid|]; [|contradiction].
    destruct Hd as [<- | []]. simpl.
    split; [reflexivity|]. split; [reflexivity|].
    split; [now apply (teamFilter_registered tagData)|].
    destruct (mapUserId_of_ObjectId uid) as (s & Hs & Hne & _).
    exists s. rewrite Hs. auto.
  - unfold Tags.updateTags in Hin. rewrite Hv in Hin. simpl in Hin.
    destruct Hin as [Hin | []]. discriminate Hin.
Qed.

Lemma requested_tag_well_formed_witness :
  registered Tags.orgIdMap (Tags.orgId Sample.hotLeadTag).
Proof.
  destruct (requested_tag_well_formed Migration.reliableTags
              Fixtures.twoHotLeads Sample.oneHouse Sample.hotLeadTag)
    as (tagData & _ & _ & _ & _ & _ & H & _).
  - vm_compute. do 6 right. left. reflexivity.
  - exact H.
Defined.


(** X17: tags the target already holds are left alone: when every document
    of the two teams matches an existing tag (by [id] or by name), the run
    issues no call besides the authentication and the listing of the tags
    (not even the listing, when the grouping of the references ends the
    run); in particular it adds no link, so links missing for existing tags
    are not added by running the script again. *)
Theorem existing_tags_left_alone verdict db t who :
  Tags.viewer t = Some who ->
  (forall tagData,
      In tagData (Tags.Source.tagdatas db) ->
      Tags.teamFilter tagData = true ->
      Tags.alreadyExists t tagData = true) ->
  Tags.updateTags verdict db t
  = match Tags.groupRefs (filter Tags.refFilter (Tags.Source.tagrefs db)) with
    | inr _ => (Tags.mkState t [Tags.GetAll; Tags.Viewer] [], Tags.Completed)
    | inl e => (Tags.mkState t [Tags.Viewer] [], Tags.Fatal e)
    end.
Proof.
  intros Hv Hall. unfold Tags.updateTags. rewrite Hv.
  destruct (Tags.groupRefs _) as [e|tagRefMap]; [reflexivity|].
  rewrite forEach_all_skipped; [reflexivity|].
  intros tagData Hin. apply filter_In in Hin. destruct Hin as [Hin Hf].
  right; right. now apply Hall.
Qed.

Lemma existing_tags_left_alone_witness :
  Tags.updateTags Migration.reliableTags
    (Tags.Source.mkDatabase [Sample.hotLead] [Sample.hotOnHouse])
    Sample.oneTag
  = (Tags.mkState Sample.oneTag [Tags.GetAll; Tags.Viewer] [],
     Tags.Completed).
Proof.
  apply (existing_tags_left_alone Migration.reliableTags
           (Tags.Source.mkDatabase [Sample.hotLead] [Sample.hotOnHouse])
           Sample.oneTag 7 eq_refl).
  intros tagData [<- | []] _. reflexivity.
Defined.

(** ** tags.js: a run only adds *)

Lemma mapSet_In m k v entry :
  In entry (Tags.mapSet m k v) -> entry = (k, v) \/ In entry m.
Proof.
  induction m as [|[k' v'] m IH]; simpl.
  - intros [<- | []]. now left.
  - destruct (String.eqb k' k) eqn:E; simpl.
    + intros [<- | H]; [|auto]. apply String.eqb_eq in E. subst. now left.
    + intros [<- | H]; [auto|]. destruct (IH H); auto.
Qed.

Lemma createTag_grown verdict t d :
  Tags.preserves (Tags.grownFrom t) (Tags.createTag verdict d).
Proof.
  intros st (Hv & Hp & newTags & newLinks & Ht & Hl & Hlinks & Hc).
  unfold Tags.createTag.
  destruct (verdict (Tags.target st) (Tags.CreateTagFromMongo d)); simpl;
    try (split; [exact Hv|]; split; [exact Hp|];
         exists newTags, newLinks; now repeat split).
  split; [exact Hv|]. split; [exact Hp|].
  exists (newTags ++ [Tags.mkTagDoc (Tags.nextId (Tags.target st)) None d]),
         newLinks.
  split; [now rewrite Ht, app_assoc|]. split; [exact Hl|]. split.
  - eapply Forall_impl; [|exact Hlinks]. simpl.
    intros l [H1 (doc & Hd & He)]. split; [exact H1|].
    exists doc. split; [|exact He]. apply in_or_app. now left.
  - apply Forall_forall. intros entry Hin.
    apply mapSet_In in Hin. destruct Hin as [-> | Hin].
    + eexists. split; [apply in_or_app; right; now left|]. split; reflexivity.
    + rewrite Forall_forall in Hc. destruct (Hc entry Hin) as (doc & Hd & He).
      exists doc. split; [|exact He]. apply in_or_app. now left.
Qed.

Lemma createdTags_linkRef verdict g ref st :
  Tags.createdTags (fst (Tags.linkRef verdict g ref st)) = Tags.createdTags st.
Proof.
  pose proof (linkRef_cases verdict g ref st) as Hc. cbv zeta in Hc.
  destruct (Tags.Source.refWith ref) as [refWith|];
    [|rewrite Hc; reflexivity].
  destruct (Tags.getByMongoId (Tags.target st) _) as [rec|].
  - destruct Hc as [[_ Hc] | [_ Hc]]; rewrite Hc; [reflexivity|].
    unfold Tags.addTagToRecord. destruct (verdict _ _); reflexivity.
  - rewrite Hc. reflexivity.
Qed.

(** Linking for a tag created in this run keeps the state grown from [t]. *)
Lemma linkRef_grown verdict t g ref st :
  Tags.grownFrom t st ->
  (exists entry, In entry (Tags.createdTags st) /\ snd entry = g) ->
  Tags.grownFrom t (fst (Tags.linkRef verdict g ref st)).
Proof.
  intros (Hv & Hp & newTags & newLinks & Ht & Hl & Hlinks & Hc)
         (entry & Hentry & Hg).
  assert (Hsame : forall st',
             Tags.target st' = Tags.target st ->
             Tags.createdTags st' = Tags.createdTags st ->
             Tags.grownFrom t st').
  { intros st' E1 E2. unfold Tags.grownFrom. rewrite E1, E2.
    split; [exact Hv|]. split; [exact Hp|].
    exists newTags, newLinks. now repeat split. }
  pose proof (linkRef_cases verdict g ref st) as Hcase. cbv zeta in Hcase.
  pose proof (createdTags_linkRef verdict g ref st) as Hcreated.
  destruct (Tags.Source.refWith ref) as [refWith|];
    [|apply Hsame; [now rewrite Hcase | exact Hcreated]].
  destruct (Tags.getByMongoId (Tags.target st) _) as [rec|] eqn:Ef.
  - destruct Hcase as [[_ Hcase] | [_ Hcase]].
    + apply Hsame; [now rewrite Hcase | exact Hcreated].
    + rewrite Hcase in *.
      match goal with
      | |- context [Tags.addTagToRecord verdict ?r g ?s] =>
          destruct (target_addTagToRecord verdict r g s) as [E | E]
      end.
      * apply Hsame; [exact E | exact Hcreated].
      * unfold Tags.grownFrom. rewrite E, Hcreated. simpl.
        split; [exact Hv|]. split; [exact Hp|].
        exists newTags, (newLinks ++ [(Tags.prop_id rec, g)]).
        split; [exact Ht|]. split; [now rewrite Hl, app_assoc|].
        split; [|exact Hc].
        apply Forall_app. split; [exact Hlinks|].
        constructor; [|constructor]. simpl. split.
        -- exists rec. split; [|reflexivity].
           unfold Tags.getByMongoId in Ef. rewrite Hp in Ef.
           eapply find_some, Ef.
        -- rewrite Forall_forall in Hc.
           destruct (Hc entry Hentry) as (doc & Hd & He & _).
           exists doc. split; [exact Hd | now rewrite He].
  - apply Hsame; [now rewrite Hcase | exact Hcreated].
Qed.

Lemma linkCreated_grown verdict t m :
  Tags.preserves (Tags.grownFrom t) (Tags.linkCreated verdict m).
Proof.
  intros st H. unfold Tags.linkCreated.
  assert (Hgoal :
    (fun st' => Tags.grownFrom t st' /\
                Tags.createdTags st' = Tags.createdTags st)
      (fst (Tags.forEach (Tags.createdTags st)
              (fun entry =>
                 Tags.forEach (Tags.refsOf m (fst entry))
                              (Tags.linkRef verdict (snd entry))) st)));
    [|exact (proj1 Hgoal)].
  apply (preserves_forEach
           (fun st' => Tags.grownFrom t st' /\
                       Tags.createdTags st' = Tags.createdTags st));
    [|now split].
  intros entry Hentry. apply preserves_forEach. intros ref _ st' [H1 H2].
  split.
  - apply linkRef_grown; [exact H1|]. exists entry. rewrite H2. now split.
  - now rewrite createdTags_linkRef.
Qed.

Lemma processTag_grown verdict t m ids names tagData :
  Tags.preserves (Tags.grownFrom t)
                 (Tags.processTag verdict m ids names tagData).
Proof.
  unfold Tags.processTag.
  apply preserves_tryCatch; [|intros; apply preserves_skip].
  intros st H.
  destruct (Tags.Source.team tagData) as [tm|]; [|exact H].
  destruct (Tags.has ids _ || Tags.has names _); [exact H|].
  destruct (Tags.buildTag _ _ _ tagData) as [e|d]; [exact H|].
  apply preserves_andThen; [| apply linkCreated_grown | exact H].
  apply preserves_tryCatch; [|intros; apply preserves_skip].
  apply createTag_grown.
Qed.

Lemma updateTags_grown verdict db t :
  Tags.grownFrom t (fst (Tags.updateTags verdict db t)).
Proof.
  assert (H0 : forall cs, Tags.grownFrom t (Tags.mkState t cs [])).
  { intros cs. split; [reflexivity|]. split; [reflexivity|].
    exists [], []. simpl. rewrite !app_nil_r. repeat split; constructor. }
  unfold Tags.updateTags. destruct (Tags.viewer t); [|apply H0].
  destruct (Tags.groupRefs _) as [e|tagRefMap]; [apply H0|].
  match goal with
  | |- Tags.grownFrom t (fst (match ?run with _ => _ end)) =>
      assert (H : Tags.grownFrom t (fst run));
        [|destruct run as [st' [e|]]; exact H]
  end.
  apply preserves_forEach; [|apply H0].
  intros tagData _. apply processTag_grown.
Qed.

(** X16: a run of the tag script only adds to the target: the properties are
    untouched, the tags and links held before stay as they were and in place,
    and every link it adds joins a property of the target to a tag created
    during this very run. *)
Theorem tag_run_only_adds verdict db t :
  let final := Tags.target (fst (Tags.updateTags verdict db t)) in
  Tags.properties final = Tags.properties t /\
  exists newTags newLinks,
    Tags.tagDocs final = Tags.tagDocs t ++ newTags /\
    Tags.links final = Tags.links t ++ newLinks /\
    Forall (fun l =>
              (exists p, In p (Tags.properties t) /\ Tags.prop_id p = fst l) /\
              (exists doc, In doc newTags /\ Tags.tag_id doc = snd l))
           newLinks.
Proof.
  cbv zeta.
  destruct (updateTags_grown verdict db t)
    as (_ & Hp & newTags & newLinks & Ht & Hl & Hlinks & _).
  split; [exact Hp|]. exists newTags, newLinks. auto.
Qed.

(** ** properties.js: the update of the coordinates *)

Section CoordinatesFacts.

Variables (number token : Type).
Variable geocode : string -> Coordinates.geoReply number.
Variable rejects : list (Coordinates.property number) -> nat ->
                   Coordinates.locationInfo number -> bool.

(** What the loop has requested, written and counted after a list of
    properties. *)
Lemma updateAll_effect ps :
  forall st,
    let final := Coordinates.updateAll geocode rejects ps st in
    Coordinates.requests (Coordinates.calls final)
    = rev (Coordinates.addressLines ps)
      ++ Coordinates.requests (Coordinates.calls st) /\
    Coordinates.writes (Coordinates.calls final)
    = rev (Coordinates.geocoded geocode ps)
      ++ Coordinates.writes (Coordinates.calls st) /\
    Coordinates.skippedCount final + List.length (Coordinates.addressLines ps)
    = Coordinates.skippedCount st + List.length ps /\
    Coordinates.updatedCount final + Coordinates.errorCount final
    = Coordinates.updatedCount st + Coordinates.errorCount st
      + List.length (Coordinates.addressLines ps) /\
    Coordinates.updatedCount final
    <= Coordinates.updatedCount st
       + List.length (Coordinates.geocoded geocode ps) /\
    ((forall t id loc, rejects t id loc = false) ->
     Coordinates.updatedCount final
     = Coordinates.updatedCount st
       + List.length (Coordinates.geocoded geocode ps)).
Proof.
  induction ps as [|p ps IH]; intros st; cbv zeta.
  - simpl. repeat split; auto; lia.
  - unfold Coordinates.updateAll. simpl fold_left.
    fold (Coordinates.updateAll geocode rejects ps
            (Coordinates.processProperty geocode rejects p st)).
    destruct (IH (Coordinates.processProperty geocode rejects p st))
      as (Hr & Hw & Hs & Hc & Hu & Ha).
    rewrite Hr, Hw. clear Hr Hw.
    unfold Coordinates.addressLines, Coordinates.geocoded in *.
    simpl flat_map. unfold Coordinates.processProperty in *.
    destruct (Coordinates.address p) as [a|]; simpl in *.
    + destruct (Coordinates.getCoordinates geocode a) as [loc|]; simpl in *.
      * destruct (rejects (Coordinates.target st) (Coordinates._id p) loc)
          eqn:Er; simpl in *; rewrite <- !app_assoc; simpl;
          repeat split; try reflexivity; try lia.
        -- intros Hall. rewrite Hall in Er. discriminate Er.
        -- intros Hall. rewrite (Ha Hall). lia.
      * rewrite <- !app_assoc. simpl.
        repeat split; try reflexivity; try lia.
        intros Hall. rewrite (Ha Hall). lia.
    + repeat split; try reflexivity; try lia.
      intros Hall. rewrite (Ha Hall). lia.
Qed.

(** X18: the update loop counts every property exactly once and never stops
    early: the skipped count is the number of properties without an address,
    the updated and error counts add up to the number of properties with
    one, so the three add up to the number of properties. *)
Theorem every_property_counted_once ps t :
  let final :=
    Coordinates.updateAll geocode rejects ps
                          (Coordinates.mkProgress t [] 0 0 0) in
  Coordinates.skippedCount final
  + List.length (Coordinates.addressLines ps) = List.length ps /\
  Coordinates.updatedCount final + Coordinates.errorCount final
  = List.length (Coordinates.addressLines ps) /\
  Coordinates.updatedCount final + Coordinates.skippedCount final
  + Coordinates.errorCount final = List.length ps.
Proof.
  cbv zeta.
  destruct (updateAll_effect ps (Coordinates.mkProgress t [] 0 0 0))
    as (_ & _ & Hs & Hc & _).
  simpl in Hs, Hc. repeat split; lia.
Qed.

(** X19: coordinates are requested once for each property that has an
    address, in order, with the line made of its street, city, state and
    zip; no request is made for a property without address. *)
Theorem one_request_per_addressed_property ps t :
  rev (Coordinates.requests
         (Coordinates.calls
            (Coordinates.updateAll geocode rejects ps
                                   (Coordinates.mkProgress t [] 0 0 0))))
  = Coordinates.addressLines ps.
Proof.
  destruct (updateAll_effect ps (Coordinates.mkProgress t [] 0 0 0))
    as (Hr & _).
  cbv zeta in Hr. rewrite Hr. simpl. rewrite app_nil_r. apply rev_involutive.
Qed.

(** X20: a write is issued exactly for the properties whose geocoding gave a
    location, in order, with the identifier and organization of the property
    and that location; a property without address or whose geocoding failed
    gets no write. The updated count never exceeds the number of writes, and
    equals it on a target that rejects none. *)
Theorem writes_follow_geocoding ps t :
  let final :=
    Coordinates.updateAll geocode rejects ps
                          (Coordinates.mkProgress t [] 0 0 0) in
  rev (Coordinates.writes (Coordinates.calls final))
  = Coordinates.geocoded geocode ps /\
  Coordinates.updatedCount final
  <= List.length (Coordinates.geocoded geocode ps) /\
  ((forall t' id loc, rejects t' id loc = false) ->
   Coordinates.updatedCount final
   = List.length (Coordinates.geocoded geocode ps) /\
   Coordinates.errorCount final + List.length (Coordinates.geocoded geocode ps)
   = List.length (Coordinates.addressLines ps)).
Proof.
  cbv zeta.
  destruct (updateAll_effect ps (Coordinates.mkProgress t [] 0 0 0))
    as (_ & Hw & _ & Hc & Hu & Ha).
  cbv zeta in *. simpl in *. split; [|split].
  - rewrite Hw, app_nil_r. apply rev_involutive.
  - exact Hu.
  - intros Hall. specialize (Ha Hall). split; [exact Ha | lia].
Qed.

Variable getProperties :
  option token -> Properties.pageResult token (Coordinates.property number).

(** X21: the script as a whole. Without a viewer it ends in its outer handler
    before any page is fetched or any write issued. With one, and a source
    whose responses are empty, final or move the cursor forward, enough fuel
    makes it complete, and the summary accounts for every property
    extracted: total = updated + skipped + errors. *)
Theorem updateCoordinates_accounts_for_all
        (remaining : option token -> nat) t who :
  (forall c,
      let r := getProperties c in
      Properties.page r = [] \/ Properties.isDone r = true \/
      remaining (Some (Properties.continueCursor r)) < remaining c) ->
  (forall fuel,
      Coordinates.updateCoordinates geocode rejects getProperties fuel None t
      = Some (Coordinates.mkProgress t [] 0 0 0,
              Coordinates.Fatal (Error "Authentication failed"))) /\
  exists final report,
    (forall fuel,
        remaining None < fuel ->
        Coordinates.updateCoordinates geocode rejects getProperties fuel
                                      (Some who) t
        = Some (final, Coordinates.Completed report)) /\
    Coordinates.total report
    = Coordinates.updated report + Coordinates.skipped report
      + Coordinates.errors report.
Proof.
  intros Hp. split; [reflexivity|].
  destruct (fetchAll_runs token (Coordinates.property number) getProperties
              remaining Hp (S (remaining None)) (Properties.initial _ _)
              eq_refl)
    as (extraction & earlier & last & Hf & _).
  { simpl. lia. }
  eexists. eexists. split.
  - intros fuel Hlt. unfold Coordinates.updateCoordinates.
    rewrite (fetchAll_more_fuel token (Coordinates.property number)
               getProperties (S (remaining None)) _ extraction fuel Hf);
      [reflexivity | lia].
  - simpl.
    destruct (updateAll_effect (Properties.allProperties extraction)
                (Coordinates.mkProgress t [] 0 0 0))
      as (_ & _ & Hs & Hc & _).
    simpl in Hs, Hc. lia.
Qed.

End CoordinatesFacts.

Lemma writes_follow_geocoding_witness :
  Coordinates.updatedCount
    (Coordinates.updateAll Fixtures.atlas Fixtures.accepting
       Fixtures.threeProperties
       (Coordinates.mkProgress Fixtures.threeProperties [] 0 0 0))
  = List.length (Coordinates.geocoded Fixtures.atlas Fixtures.threeProperties).
Proof.
  apply (proj2 (proj2 (writes_follow_geocoding Z Fixtures.atlas
                         Fixtures.accepting Fixtures.threeProperties
                         Fixtures.threeProperties))).
  reflexivity.
Defined.

Lemma updateCoordinates_accounts_for_all_witness :
  exists final report,
    (forall fuel,
        Fixtures.onePageLeft None < fuel ->
        Coordinates.updateCoordinates Fixtures.atlas Fixtures.accepting
          Fixtures.onePage fuel (Some 7) Fixtures.threeProperties
        = Some (final, Coordinates.Completed report)) /\
    Coordinates.total report
    = Coordinates.updated report + Coordinates.skipped report
      + Coordinates.errors report.
Proof.
  apply (updateCoordinates_accounts_for_all Z nat Fixtures.atlas
           Fixtures.accepting Fixtures.onePage Fixtures.onePageLeft
           Fixtures.threeProperties 7).
  intros [n|]; simpl; auto.
Defined.

(** The sample update: one property updated, one skipped, one error. *)
Example sample_update :
  option_map snd
    (Coordinates.updateCoordinates Fixtures.atlas Fixtures.accepting
       Fixtures.onePage 2 (Some 7) Fixtures.threeProperties)
  = Some (Coordinates.Completed (Coordinates.mkSummary 3 1 1 1)).
Proof. reflexivity. Qed.

(** ** users.js: look-up before write *)

(** X22: the user script never writes without having looked the email up:
    its calls are look-ups each followed by one write; a create is issued
    only when the look-up found no user, and an update always carries the
    identifier of the user the look-up found. The number of calls is twice
    the number of users counted as migrated or as errors. *)
Theorem every_write_follows_its_lookup rejects clock users t :
  let final := fst (Users.migrateUsers rejects clock users t) in
  Users.lookedUp (Users.calls final) /\
  List.length (Users.calls final)
  = 2 * (Users.migratedCount (Users.vars final)
         + Users.errorCount (Users.vars final)).
Proof.
  cbv zeta. rewrite migrateUsers_state.
  apply (processAll_invariant rejects
           (fun st => Users.lookedUp (Users.calls st) /\
                      List.length (Users.calls st)
                      = 2 * (Users.migratedCount (Users.vars st)
                             + Users.errorCount (Users.vars st))) users).
  - intros now oldUser st _ [H1 H2].
    destruct (processUser_step rejects now oldUser st)
      as [(e & _ & Hr) | [(nu & _ & _ & Hr) | (nu & _ & _ & Hr)]];
      cbv zeta in Hr; rewrite Hr; simpl; try (split; [exact H1 | exact H2]).
    split.
    + split; [|exact H1].
      destruct (Users.getUserByEmail _ _) as [existing|] eqn:Ef; simpl.
      * repeat split. unfold Users.getUserByEmail in Ef.
        apply find_some in Ef. destruct Ef as [_ Ef].
        now apply String.eqb_eq.
      * reflexivity.
    + destruct (Users.getUserByEmail _ _), (rejects _ _); simpl; lia.
  - apply incl_refl.
  - split; [exact I | reflexivity].
Qed.

(** ** Running a script again, from any target *)

(** X23: on a target that performs every write, running the user script a
    second time creates no user and leaves the table a single run at the
    second run's clock would leave, from any starting table whose users have
    distinct identifiers, not only from an empty one. *)
Theorem user_rerun_from_any_table c1 c2 users t :
  Users.wellFormed t ->
  let first := fst (Users.migrateUsers Migration.reliableUsers c1 users t) in
  let second :=
    fst (Users.migrateUsers Migration.reliableUsers c2 users
                            (Users.target first)) in
  Users.target second
  = Users.target (fst (Users.migrateUsers Migration.reliableUsers c2 users t))
  /\ existsb Migration.isCreateUser (Users.calls second) = false.
Proof. apply migrateUsers_twice. Qed.

Lemma user_rerun_from_any_table_witness :
  existsb Migration.isCreateUser
    (Users.calls
       (fst (Users.migrateUsers Migration.reliableUsers (fun _ => 2%Z)
               [Sample.ann; Sample.stranger]
               (Users.target
                  (fst (Users.migrateUsers Migration.reliableUsers
                          (fun _ => 1%Z) [Sample.ann; Sample.stranger]
                          Sample.oneUser))))))
  = false.
Proof.
  apply (user_rerun_from_any_table (fun _ => 1%Z) (fun _ => 2%Z)
           [Sample.ann; Sample.stranger] Sample.oneUser).
  split; simpl; repeat constructor; auto.
Defined.

(** X24: on a target that performs every write, running the tag script a
    second time requests no creation and leaves the target exactly as the
    first run left it, from any starting target: no tag, property or link is
    added or changed. *)
Theorem tag_rerun_changes_nothing db t :
  let first := fst (Tags.updateTags Migration.reliableTags db t) in
  let second :=
    fst (Tags.updateTags Migration.reliableTags db (Tags.target first)) in
  Tags.target second = Tags.target first /\
  existsb Migration.isCreateTag (Tags.calls second) = false.
Proof. apply updateTags_twice. Qed.

(** ** The endings, on the samples *)


(** A reference without [tagObject] ends the run before the tags are
    listed. *)
Example sample_reference_without_tagObject :
  Tags.updateTags Migration.reliableTags
    (Tags.Source.mkDatabase [Sample.hotLead] [Fixtures.dangling])
    Sample.oneHouse
  = (Tags.mkState Sample.oneHouse [Tags.Viewer] [],
     Tags.Fatal (TypeError "tagRef.tagObject")).
Proof. reflexivity. Qed.

(** A reference without [refWith] makes the handler of the linking throw in
    turn: the tag is created, the linking of its references is left at once
    and the reference to [house] that comes next is never looked at; the run
    completes. *)
Example sample_reference_without_refWith :
  let run :=
    Tags.updateTags Migration.reliableTags
      (Tags.Source.mkDatabase [Sample.hotLead]
                              [Fixtures.unbound; Sample.hotOnHouse])
      Sample.oneHouse in
  rev (Tags.calls (fst run))
  = [ Tags.Viewer; Tags.GetAll;
      Tags.Mutation (Tags.CreateTagFromMongo Sample.hotLeadTag) ] /\
  Tags.links (Tags.target (fst run)) = [] /\
  snd run = Tags.Completed.
Proof. repeat split. Qed.

(** A [lastActive] that is no date ends the run of the user script at that
    document: [ann] before it is migrated, [annAgain] after it is not looked
    at. *)
Example sample_invalid_date :
  Users.migrateUsers Migration.reliableUsers (fun _ => 0%Z)
                     [Sample.ann; Fixtures.timeless; Sample.annAgain]
                     Users.emptyTable
  = (Users.mkState
       (Users.mkTable [Users.mkUserDoc 0 Sample.annRecord] 1)
       [ Users.Mutation (Users.Create Sample.annRecord);
         Users.Query "a@x.com" None ]
       (Users.mkCounters 1 0 0),
     Users.Fatal (RangeError "Invalid time value")).
Proof. reflexivity. Qed.
